(** * backend/server.js: schema inspection and the /api/search handler

    A shallow embedding of [src/backend/server.js].  The MySQL server and the
    mysql2 pool are an abstract, stateful [Driver]; the JavaScript code is
    written in a small state/exception/trace monad whose state holds the
    world behind the driver and the module-level [inspectionSummary].

    Conventions of the model:
    - a JavaScript string is a [string] of code units below 256 (Latin-1);
      [trim] and [toLowerCase] follow ECMAScript on that range;
    - a row returned by SELECT is a JavaScript object, modelled as a
      [gmap string value]; a missing property reads as [VUndefined];
    - catalog replies have the shape MySQL documents for them: SHOW DATABASES
      yields the [Database] strings, DESCRIBE the [Field] strings, SHOW TABLES
      rows of string-valued properties (their keys are inspected by the code);
    - informational [console.log] output is not part of the trace;
      [console.warn] and [console.error] are. *)

From stdpp Require Import base strings list gmap.
From Stdlib Require Import ZArith Ascii Lia.
Import ListNotations.

(* ================================================================== *)
(** ** JavaScript strings and values *)

Module Js.

(** ECMAScript WhiteSpace and LineTerminator code units below 256:
    TAB, LF, VT, FF, CR, SPACE and NBSP. *)
Definition is_ws (c : ascii) : bool :=
  let n := nat_of_ascii c in
  (n =? 9) || (n =? 10) || (n =? 11) || (n =? 12) || (n =? 13)
  || (n =? 32) || (n =? 160).

Fixpoint trimStart (s : string) : string :=
  match s with
  | EmptyString => EmptyString
  | String c s' => if is_ws c then trimStart s' else s
  end.

Fixpoint trimEnd (s : string) : string :=
  match s with
  | EmptyString => EmptyString
  | String c s' =>
      match trimEnd s' with
      | EmptyString => if is_ws c then EmptyString else String c EmptyString
      | t => String c t
      end
  end.

(** [String.prototype.trim] *)
Definition trim (s : string) : string := trimEnd (trimStart s).

(** Lower-casing of one Latin-1 code unit: A-Z and the accented capitals
    U+00C0..U+00DE (the multiplication sign U+00D7 apart) move up by 32. *)
Definition lower_unit (c : ascii) : ascii :=
  let n := nat_of_ascii c in
  if ((65 <=? n) && (n <=? 90))
     || ((192 <=? n) && (n <=? 222) && negb (n =? 215))
  then ascii_of_nat (n + 32) else c.

(** [String.prototype.toLowerCase] *)
Fixpoint toLowerCase (s : string) : string :=
  match s with
  | EmptyString => EmptyString
  | String c s' => String (lower_unit c) (toLowerCase s')
  end.

(** [k.startsWith(p)] *)
Definition startsWith (k p : string) : bool := String.prefix p k.

(** [xs.includes(x)] on an array of strings *)
Definition includes (xs : list string) (x : string) : bool :=
  existsb (String.eqb x) xs.

(** A value found in a result row.  A number is [VNum n] when it is the
    integer [n] and [VFrac num den], the quotient, otherwise (DOUBLE and
    FLOAT columns, numbers of a JSON column); MySQL and JSON hold no NaN.
    [VBool] is a boolean of a JSON column, [VObj] every object the driver
    builds (Date, Buffer, parsed JSON objects and arrays), which is always
    truthy.  [VUndefined] is what reading a missing property gives. *)
Inductive value : Type :=
| VUndefined
| VNull
| VStr (s : string)
| VNum (n : Z)
| VFrac (num : Z) (den : positive)
| VBool (b : bool)
| VObj.

(** [Boolean(v)], the callback of [.filter(Boolean)] *)
Definition Boolean (v : value) : bool :=
  match v with
  | VUndefined | VNull => false
  | VStr s => negb (String.eqb s "")
  | VNum n => negb (Z.eqb n 0)
  | VFrac num _ => negb (Z.eqb num 0)
  | VBool b => b
  | VObj => true
  end.

(** The result of [Array.prototype.find] on strings: [None] is [undefined].
    [key_of] is its string conversion, used by template literals and by
    property access; [falsy] is [!x]. *)
Definition key_of (o : option string) : string :=
  match o with Some s => s | None => "undefined" end.

Definition falsy (o : option string) : bool :=
  match o with Some s => String.eqb s "" | None => true end.

End Js.
Import Js.

(** A SELECT row: property name to value. *)
Abbreviation Row := (gmap string value).

(** [row[c]] *)
Definition row_get (row : Row) (c : string) : value :=
  default VUndefined (row !! c).

(** A SHOW TABLES row: its properties in insertion order, as [Object.keys]
    lists them. *)
Definition TableRow : Type := list (string * string).

(** [row[k]] on a SHOW TABLES row *)
Fixpoint prop_get (row : TableRow) (k : string) : option string :=
  match row with
  | [] => None
  | (k', v) :: rest => if String.eqb k' k then Some v else prop_get rest k
  end.

(* ================================================================== *)
(** ** Constants of the module (server.js 36-38, 52, 151) *)

Definition WORD_COLUMNS : list string :=
  ["word"; "term"; "lemma"; "headword"; "entry"; "name"].
Definition DEF_COLUMNS : list string :=
  ["definition"; "meaning"; "gloss"; "description"; "explanation"].
Definition EX_COLUMNS : list string :=
  ["example"; "usage"; "sentence"; "samples"].

(** The array literal of the two exclusion filters. *)
Definition SYSTEM_SCHEMAS : list string :=
  ["information_schema"; "mysql"; "performance_schema"; "sys"].

(* ================================================================== *)
(** ** Data model *)

(** The object pushed at server.js 83-90.  [wordCol] is the result of
    [WORD_COLUMNS.find], hence possibly [undefined]. *)
Record Candidate : Type := mkCandidate {
  db : string;
  table : string;
  wordCol : option string;
  defCols : list string;
  exCols : list string;
  cols : list string
}.

Record InspectionSummary : Type := mkSummary {
  databases : list string;
  candidates : list Candidate
}.

(** The object pushed at server.js 134-140 and 170-176. *)
Record SearchResult : Type := mkResult {
  source : string;
  word : value;
  definitions : list value;
  examples : list value;
  row : Row
}.

Inductive Body : Type :=
| BodyError (error : string)
| BodyNotFound (w : string) (message : string)
| BodyFound (w : string) (count : nat) (results : list SearchResult).

Record Response : Type := mkResponse { status : Z; body : Body }.

(** [req.query.word] for a request with at most one [word=] parameter:
    [None] when it is absent.  Repeated or bracketed parameters, which
    Express parses to arrays and objects, are outside the model. *)
Record Request : Type := mkRequest { query_word : option string }.

(* ================================================================== *)
(** ** The driver *)

(** A thrown [Error], with its [message]. *)
Record Exn : Type := mkExn { message : string }.

(** The four statements the server sends, with the values interpolated
    into their text:
    - [SHOW DATABASES]
    - [SHOW TABLES FROM `db`]
    - [DESCRIBE `db`.`table`]
    - [SELECT * FROM `db`.`table` WHERE LOWER(`col`) = LOWER(?) LIMIT n]
      with parameter [[w]]. *)
Inductive Query : Type :=
| ShowDatabases
| ShowTablesFrom (d : string)
| Describe (d t : string)
| SelectWhereLower (d t col w : string) (limit : nat).

Definition ReplyOf (q : Query) : Type :=
  match q with
  | ShowDatabases => list string
  | ShowTablesFrom _ => list TableRow
  | Describe _ _ => list string
  | SelectWhereLower _ _ _ _ _ => list Row
  end.

(** What the process does to the outside, in order. *)
Inductive Event : Type :=
| EvAcquire (r : Exn + unit)
| EvPing (r : Exn + unit)
| EvQuery (q : Query) (r : Exn + ReplyOf q)
| EvRelease
| EvWarn (msg : string)
| EvError (msg : string)
| EvListen.

(** The pool and the server behind it: every call may fail and may change
    the world [W]. *)
Class Driver (W : Type) : Type := {
  pool_getConnection : W -> (Exn + unit) * W;
  conn_ping : W -> (Exn + unit) * W;
  conn_query : forall q : Query, W -> (Exn + ReplyOf q) * W
}.

(* ================================================================== *)
(** ** The monad of the handlers *)

Section Monad.
Context {W : Type}.

Record State : Type := mkState {
  world : W;
  inspectionSummary : InspectionSummary
}.

Record Out (A : Type) : Type := mkOut {
  res : Exn + A;
  post : State;
  evs : list Event
}.
Global Arguments mkOut {A} _ _ _.
Global Arguments res {A} _.
Global Arguments post {A} _.
Global Arguments evs {A} _.

Definition M (A : Type) : Type := State -> Out A.

Definition ret {A} (a : A) : M A := fun st => mkOut (inr a) st [].

Definition bind {A B} (m : M A) (f : A -> M B) : M B := fun st =>
  let o := m st in
  match res o with
  | inl e => mkOut (inl e) (post o) (evs o)
  | inr a => let o' := f a (post o) in
             mkOut (res o') (post o') (evs o ++ evs o')
  end.

(** [try { m } catch (e) { h e }]: the state reached when [m] throws is
    kept. *)
Definition try_catch {A} (m : M A) (h : Exn -> M A) : M A := fun st =>
  let o := m st in
  match res o with
  | inl e => let o' := h e (post o) in
             mkOut (res o') (post o') (evs o ++ evs o')
  | inr _ => o
  end.

(** [try { m } finally { f }] *)
Definition finally {A} (m : M A) (f : M unit) : M A := fun st =>
  let o := m st in
  let o' := f (post o) in
  mkOut (match res o' with inl e => inl e | inr _ => res o end)
        (post o') (evs o ++ evs o').

Definition emit (e : Event) : M unit := fun st => mkOut (inr tt) st [e].

Definition gets {A} (f : State -> A) : M A := fun st => mkOut (inr (f st)) st [].

Definition modify_summary (f : InspectionSummary -> InspectionSummary) : M unit :=
  fun st => mkOut (inr tt) (mkState (world st) (f (inspectionSummary st))) [].

(** [for (const x of xs) acc = body acc x], the accumulator standing for
    an array that the body only ever pushes to. *)
Fixpoint foldM {A B} (body : B -> A -> M B) (xs : list A) (acc : B) : M B :=
  match xs with
  | [] => ret acc
  | x :: xs' => bind (body acc x) (foldM body xs')
  end.

Fixpoint forM_ {A} (xs : list A) (body : A -> M unit) : M unit :=
  match xs with
  | [] => ret tt
  | x :: xs' => bind (body x) (fun _ => forM_ xs' body)
  end.

End Monad.
Global Arguments State : clear implicits.
Global Arguments M : clear implicits.
Global Arguments Out : clear implicits.

Declare Scope js_scope.
Delimit Scope js_scope with js.
Notation "x <- m ;; k" := (bind m (fun x => k))
  (at level 100, m at next level, right associativity) : js_scope.
Notation "m ;; k" := (bind m (fun _ => k))
  (at level 100, right associativity) : js_scope.
Local Open Scope js_scope.

(* ================================================================== *)
(** ** server.js *)

Section Server.
Context {W : Type} `{Driver W}.

(** [process.env.DB_NAME || ''] (server.js 17) *)
Variable DB_NAME : string.

(** *** Calls into the driver *)

Definition getConnection : M W unit := fun st =>
  let '(r, w) := pool_getConnection (world st) in
  mkOut r (mkState w (inspectionSummary st)) [EvAcquire r].

Definition ping : M W unit := fun st =>
  let '(r, w) := conn_ping (world st) in
  mkOut r (mkState w (inspectionSummary st)) [EvPing r].

Definition query (q : Query) : M W (ReplyOf q) := fun st =>
  let '(r, w) := conn_query q (world st) in
  mkOut r (mkState w (inspectionSummary st)) [EvQuery q r].

Definition release : M W unit := emit EvRelease.

(** *** Pieces shared by inspection and by the fallback *)

(** server.js 62 and 155:
    [Object.keys(tables[0] || {}).find(k => k.startsWith(`Tables_in_${db}`))] *)
Definition tableKeyOf (d : string) (tables : list TableRow) : option string :=
  find (fun k => startsWith k ("Tables_in_" +:+ d))
       (map fst (match tables with [] => [] | r :: _ => r end)).

(** server.js 63 and 156: [tables.map(row => row[tableKey]).filter(Boolean)] *)
Definition tableNamesOf (d : string) (tables : list TableRow) : list string :=
  let tableKey := tableKeyOf d tables in
  omap (fun r => match prop_get r (key_of tableKey) with
                 | Some s => if String.eqb s "" then None else Some s
                 | None => None
                 end) tables.

(** server.js 71 and 160: [desc.map(c => c.Field.toLowerCase())] *)
Definition lowerFields (desc : list string) : list string :=
  map toLowerCase desc.

(** server.js 132-140 and 168-176: the object built for one row, from the
    property read for the word and the two column lists mapped over. *)
Definition rowToResult (d t : string) (wcol : option string)
    (dcols ecols : list string) (r : Row) : SearchResult :=
  {| source := d +:+ "." +:+ t;
     word := row_get r (key_of wcol);
     definitions := List.filter Boolean (map (row_get r) dcols);
     examples := List.filter Boolean (map (row_get r) ecols);
     row := r |}.

(** *** inspectSchema (server.js 46-111) *)

(** server.js 79-91, once [cols] is known *)
Definition recordCandidate (d t : string) (cs : list string) : M W unit :=
  let hasWord := existsb (includes cs) WORD_COLUMNS in
  let hasDef := existsb (includes cs) DEF_COLUMNS in
  let hasEx := existsb (includes cs) EX_COLUMNS in
  if hasWord && (hasDef || hasEx) then
    let wordCol := find (includes cs) WORD_COLUMNS in
    let defCols := List.filter (includes cs) DEF_COLUMNS in
    let exCols := List.filter (includes cs) EX_COLUMNS in
    modify_summary (fun s =>
      mkSummary (databases s)
                (candidates s ++ [mkCandidate d t wordCol defCols exCols cs]))
  else ret tt.

(** server.js 68-95, the body of the loop over the tables *)
Definition inspectTable (d t : string) : M W unit :=
  try_catch
    (desc <- query (Describe d t) ;;
     recordCandidate d t (lowerFields desc))
    (fun e => emit (EvWarn ("DESCRIBE " +:+ d +:+ "." +:+ t +:+ " failed: "
                            +:+ message e))).

(** server.js 60-96, the body of the loop over the databases *)
Definition inspectDatabase (d : string) : M W unit :=
  tables <- query (ShowTablesFrom d) ;;
  forM_ (tableNamesOf d tables) (inspectTable d).

(** server.js 51-53 *)
Definition filteredDbNamesOf (dbNames : list string) : list string :=
  List.filter (fun d => negb (includes SYSTEM_SCHEMAS d))
              (if String.eqb DB_NAME "" then dbNames else [DB_NAME]).

(** server.js 51-97, once the databases are listed *)
Definition inspectDatabases (dbNames : list string) : M W unit :=
  let filteredDbNames := filteredDbNamesOf dbNames in
  forM_ filteredDbNames inspectDatabase ;;
  modify_summary (fun s => mkSummary filteredDbNames (candidates s)).

Definition inspectSchema : M W unit :=
  getConnection ;;
  finally
    (dbNames <- query ShowDatabases ;;
     inspectDatabases dbNames)
    release.

(** *** GET /api/search (server.js 113-195) *)

(** server.js 114: [(req.query.word || '').toString().trim()] *)
Definition wordOf (req : Request) : string :=
  trim (default "" (query_word req)).

(** server.js 124-145, the body of the loop over the candidates *)
Definition searchCandidate (w : string) (results : list SearchResult)
    (cand : Candidate) : M W (list SearchResult) :=
  try_catch
    (rows <- query (SelectWhereLower (db cand) (table cand)
                      (key_of (wordCol cand)) w 50) ;;
     ret (results ++ map (rowToResult (db cand) (table cand) (wordCol cand)
                            (defCols cand) (exCols cand)) rows))
    (fun e => emit (EvWarn ("Query error on " +:+ db cand +:+ "."
                            +:+ table cand +:+ ": " +:+ message e)) ;;
              ret results).

(** server.js 121-145 *)
Definition candidatePhase (w : string) : M W (list SearchResult) :=
  cands <- gets (fun st => candidates (inspectionSummary st)) ;;
  foldM (searchCandidate w) cands [].

(** server.js 157-181, the body of the loop over the tables *)
Definition fallbackTable (w d : string) (results : list SearchResult)
    (t : string) : M W (list SearchResult) :=
  try_catch
    (desc <- query (Describe d t) ;;
     let cs := lowerFields desc in
     let possibleWordCol := find (includes cs) WORD_COLUMNS in
     if falsy possibleWordCol then ret results
     else
       rows <- query (SelectWhereLower d t (key_of possibleWordCol) w 25) ;;
       ret (results ++ map (rowToResult d t possibleWordCol
                              DEF_COLUMNS EX_COLUMNS) rows))
    (fun _ => ret results).

(** server.js 153-182, the body of the loop over the databases *)
Definition fallbackDatabase (w : string) (results : list SearchResult)
    (d : string) : M W (list SearchResult) :=
  tables <- query (ShowTablesFrom d) ;;
  foldM (fallbackTable w d) (tableNamesOf d tables) results.

(** server.js 149-182 *)
Definition fallbackPhase (w : string) (results : list SearchResult)
    : M W (list SearchResult) :=
  dbs <- query ShowDatabases ;;
  let dbNames := List.filter (fun d => negb (includes SYSTEM_SCHEMAS d)) dbs in
  foldM (fallbackDatabase w) dbNames results.

(** server.js 185-188 *)
Definition respond (w : string) (results : list SearchResult) : Response :=
  if Nat.eqb (length results) 0
  then mkResponse 404 (BodyNotFound w "Not found")
  else mkResponse 200 (BodyFound w (length results) results).

(** server.js 191 *)
Definition internal_error : Response :=
  mkResponse 500 (BodyError "Internal server error").

(** server.js 120-191, the [try] block with its [catch] *)
Definition searchBody (w : string) : M W Response :=
  try_catch
    (results <- candidatePhase w ;;
     results <- (if Nat.eqb (length results) 0
                 then fallbackPhase w results else ret results) ;;
     ret (respond w results))
    (fun err => emit (EvError ("Search error: " +:+ message err)) ;;
                ret internal_error).

(** The handler.  A rejected [pool.getConnection()] at server.js 119 is
    outside the [try]: the handler's promise rejects, which is the [inl]
    result here. *)
Definition searchHandler (req : Request) : M W Response :=
  let w := wordOf req in
  if String.eqb w "" then
    ret (mkResponse 400 (BodyError "Missing required query parameter: word"))
  else
    getConnection ;;
    finally (searchBody w) release.

(** *** Start-up (server.js 208-223) *)

(** server.js 210-215, the [try] block *)
Definition connectAndInspect : M W unit :=
  getConnection ;; ping ;; release ;; inspectSchema.

Definition startup : M W unit :=
  try_catch
    connectAndInspect
    (fun e => emit (EvError ("Failed to connect or inspect schema: "
                             +:+ message e))) ;;
  emit EvListen.

(** server.js 41-44: the summary the module starts with *)
Definition initialState (w0 : W) : State W := mkState w0 (mkSummary [] []).

Definition boot (w0 : W) : Out W unit := startup (initialState w0).

End Server.

(* ================================================================== *)
(** ** An in-memory MySQL server

    A test double for the driver: a catalog of databases and tables, a set
    of statements that fail, and a switch for the pool.  Column names are
    matched without regard to case, as MySQL does, and the properties of a
    returned row carry the column names as the table declares them, as
    mysql2 does.  [LOWER(col) = LOWER(?)] compares string cells only. *)

Module Mock.

Record MTable : Type := mkTable {
  t_name : string;
  t_fields : list string;
  t_rows : list (list value)
}.

Record MDatabase : Type := mkDatabase {
  d_name : string;
  d_tables : list MTable
}.

Record Server : Type := mkServer {
  catalog : list MDatabase;
  fault : Query -> bool;
  pool_down : bool
}.

Definition find_db (cat : list MDatabase) (d : string) : option MDatabase :=
  find (fun x => String.eqb (d_name x) d) cat.

Definition find_table (cat : list MDatabase) (d t : string) : option MTable :=
  match find_db cat d with
  | Some x => find (fun y => String.eqb (t_name y) t) (d_tables x)
  | None => None
  end.

(** The cell of a row under the column called [col]. *)
Fixpoint cell (fields : list string) (vals : list value) (col : string) : value :=
  match fields, vals with
  | f :: fs, v :: vs =>
      if String.eqb (toLowerCase f) (toLowerCase col) then v else cell fs vs col
  | _, _ => VNull
  end.

Definition matches (fields : list string) (col w : string) (vals : list value) : bool :=
  match cell fields vals col with
  | VStr s => String.eqb (toLowerCase s) (toLowerCase w)
  | _ => false
  end.

Definition to_row (fields : list string) (vals : list value) : Row :=
  list_to_map (zip fields vals).

Definition unknown (what : string) : Exn := mkExn ("Unknown " +:+ what).

Definition reply (cat : list MDatabase) (q : Query) : Exn + ReplyOf q :=
  match q return Exn + ReplyOf q with
  | ShowDatabases => inr (map d_name cat)
  | ShowTablesFrom d =>
      match find_db cat d with
      | Some x => inr (map (fun y => [("Tables_in_" +:+ d, t_name y)]) (d_tables x))
      | None => inl (unknown "database")
      end
  | Describe d t =>
      match find_table cat d t with
      | Some y => inr (t_fields y)
      | None => inl (unknown "table")
      end
  | SelectWhereLower d t col w limit =>
      match find_table cat d t with
      | Some y =>
          if includes (map toLowerCase (t_fields y)) (toLowerCase col)
          then inr (take limit
                      (map (to_row (t_fields y))
                           (List.filter (matches (t_fields y) col w) (t_rows y))))
          else inl (unknown "column")
      | None => inl (unknown "table")
      end
  end.

Definition down : Exn := mkExn "connect ECONNREFUSED".
Definition failed : Exn := mkExn "statement failed".

#[global] Instance driver : Driver Server := {|
  pool_getConnection := fun s =>
    (if pool_down s then inl down else inr tt, s);
  conn_ping := fun s => (inr tt, s);
  conn_query := fun q s =>
    (if fault s q then inl failed else reply (catalog s) q, s)
|}.

Definition no_fault : Query -> bool := fun _ => false.

(** The scenario of the specification: one user database holding the
    single table [words(word, definition)] with the single row
    [("apple", "a fruit")], next to system schemas. *)
Definition help_topic : MTable :=
  mkTable "help_topic" ["help_topic_id"; "name"; "description"; "example"]
          [[VNum 1; VStr "APPLE"; VStr "not a help topic"; VStr ""]].

Definition words : MTable :=
  mkTable "words" ["word"; "definition"] [[VStr "apple"; VStr "a fruit"]].

Definition lexicon : Server :=
  mkServer [mkDatabase "information_schema" [];
            mkDatabase "mysql" [help_topic];
            mkDatabase "dict" [words]]
           no_fault false.


(** An entry without its definition yet. *)
Definition bare : Server :=
  mkServer [mkDatabase "dict"
              [mkTable "words" ["word"; "definition"] [[VStr "apple"; VNull]]]]
           no_fault false.

(** DESCRIBE of the first table fails; the second is a lexical table. *)
Definition flaky : Server :=
  mkServer [mkDatabase "dict"
              [mkTable "drafts" ["word"; "definition"] [];
               mkTable "words" ["word"; "definition"]
                       [[VStr "apple"; VStr "a fruit"]]]]
           (fun q => match q with
                     | Describe "dict" "drafts" => true
                     | _ => false
                     end)
           false.

(** The tables of one database cannot be listed. *)
Definition locked : Server :=
  mkServer [mkDatabase "dict"
              [mkTable "words" ["word"; "definition"]
                       [[VStr "apple"; VStr "a fruit"]]];
            mkDatabase "archive"
              [mkTable "old_words" ["word"; "definition"]
                       [[VStr "pear"; VStr "another fruit"]]]]
           (fun q => match q with
                     | ShowTablesFrom "archive" => true
                     | _ => false
                     end)
           false.

(** Column names declared with capitals. *)
Definition capitalised : Server :=
  mkServer [mkDatabase "dict"
              [mkTable "Words" ["Word"; "Definition"]
                       [[VStr "apple"; VStr "a fruit"]]]]
           no_fault false.

(** The databases cannot be listed. *)
Definition offline : Server :=
  mkServer (catalog lexicon)
           (fun q => match q with
                     | ShowDatabases => true
                     | _ => false
                     end)
           false.

End Mock.

(* ================================================================== *)
(** ** Reading a trace *)

(** The two statements that list the catalog. *)
Definition is_listing (q : Query) : bool :=
  match q with
  | ShowDatabases | ShowTablesFrom _ => true
  | _ => false
  end.

Definition listing_failed (e : Event) : bool :=
  match e with
  | EvQuery q (inl _) => is_listing q
  | _ => false
  end.

Definition is_show_databases (e : Event) : bool :=
  match e with
  | EvQuery ShowDatabases _ => true
  | _ => false
  end.

Definition is_catalog_walk (e : Event) : bool :=
  match e with
  | EvQuery (ShowTablesFrom _) _ | EvQuery (Describe _ _) _ => true
  | _ => false
  end.

(** What concerns one table only: its DESCRIBE, its SELECT, a warning. *)
Definition per_table (e : Event) : bool :=
  match e with
  | EvQuery (Describe _ _) _ | EvQuery (SelectWhereLower _ _ _ _ _) _ => true
  | EvWarn _ => true
  | _ => false
  end.

Definition is_inl {A B} (r : A + B) : bool :=
  match r with inl _ => true | inr _ => false end.

(** The statements of a trace that failed, in order. *)
Definition failed_query (e : Event) : option Query :=
  match e with
  | EvQuery q (inl _) => Some q
  | _ => None
  end.

Definition failed_queries (trace : list Event) : list Query :=
  omap failed_query trace.

Definition show_databases_failed (e : Event) : bool :=
  match e with
  | EvQuery ShowDatabases (inl _) => true
  | _ => false
  end.

Definition is_error_log (e : Event) : bool :=
  match e with
  | EvError _ => true
  | _ => false
  end.

(** The handler sends SHOW DATABASES at server.js 149 and nowhere else, so
    the fallback phase has started exactly when the statement is in the
    trace of the request. *)
Definition fallback_ran (trace : list Event) : bool :=
  existsb is_show_databases trace.

(** The rows a SELECT brought back; a SELECT that failed brought none. *)
Definition selected (e : Event) : option (list Row) :=
  match e with
  | EvQuery q r =>
      match q return Exn + ReplyOf q -> option (list Row) with
      | SelectWhereLower _ _ _ _ _ =>
          fun r => Some (match r with inr rows => rows | inl _ => [] end)
      | _ => fun _ => None
      end r
  | _ => None
  end.

Definition select_replies (trace : list Event) : list (list Row) :=
  omap selected trace.

(** The rows of a reply to SELECT; none when it failed. *)
Definition rows_of (r : Exn + list Row) : list Row :=
  match r with inr rows => rows | inl _ => [] end.

(** The result built from a row of a candidate table. *)
Definition resultOf (c : Candidate) (r : Row) : SearchResult :=
  rowToResult (db c) (table c) (wordCol c) (defCols c) (exCols c) r.

(** Every returned row next to the candidate whose SELECT returned it, in
    the order of the loops at server.js 124 and 131. *)
Definition returned_rows (cands : list Candidate) (replies : list (list Row))
    : list (Candidate * Row) :=
  concat (zip_with (fun c rows => map (pair c) rows) cands replies).



(** The invariant of the data model on one candidate. *)
Definition candidate_ok (c : Candidate) : Prop :=
  (exists w, wordCol c = Some w /\ In w (cols c))
  /\ incl (defCols c) (cols c)
  /\ incl (exCols c) (cols c).

(** The invariant on the summary. *)
Definition all_ok (s : InspectionSummary) : Prop :=
  Forall candidate_ok (candidates s).

(** The condition of server.js 79 on a lower-cased column set, in words. *)
Definition qualifies (cs : list string) : Prop :=
  (exists x, In x WORD_COLUMNS /\ In x cs)
  /\ ((exists x, In x DEF_COLUMNS /\ In x cs)
      \/ (exists x, In x EX_COLUMNS /\ In x cs)).

(** Every code unit of the string is white space. *)
Fixpoint all_ws (s : string) : bool :=
  match s with
  | EmptyString => true
  | String c s' => is_ws c && all_ws s'
  end.

(** The word parameter is absent, empty or made of white space only. *)
Definition blank (req : Request) : Prop :=
  match query_word req with
  | None => True
  | Some s => all_ws s = true
  end.

Section Observations.
Context {W : Type} `{Driver W}.

(** The value of [results] at server.js 147, when the request gets that
    far: [None] for a request that is rejected or gets no connection. *)
Definition phase1 (req : Request) (st : State W) : option (list SearchResult) :=
  if String.eqb (wordOf req) "" then None
  else
    let o := getConnection st in
    match res o with
    | inl _ => None
    | inr _ =>
        match res (candidatePhase (wordOf req) (post o)) with
        | inr rs => Some rs
        | inl _ => None
        end
    end.

(** The results in the body of a 200 answer; none in any other outcome. *)
Definition results_of (o : Out W Response) : list SearchResult :=
  match res o with
  | inr (mkResponse _ (BodyFound _ _ rs)) => rs
  | _ => []
  end.

(** The trace of the candidate phase of the request. *)
Definition phase1_trace (req : Request) (st : State W) : list Event :=
  evs (candidatePhase (wordOf req) (post (getConnection st))).

(** *** Three ways to specify a computation *)

(** It never throws. *)
Definition total {A} (m : M W A) : Prop :=
  forall st, exists a, res (m st) = inr a.

(** All it does to the outside satisfies [Q]. *)
Definition emits {A} (Q : Event -> Prop) (m : M W A) : Prop :=
  forall st, Forall Q (evs (m st)).

(** It keeps an invariant of the summary. *)
Definition keeps {A} (I : InspectionSummary -> Prop) (m : M W A) : Prop :=
  forall st, I (inspectionSummary st) -> I (inspectionSummary (post (m st))).

(** It throws exactly when it emits an event that [P] marks. *)
Definition throws_iff {A} (P : Event -> bool) (m : M W A) : Prop :=
  forall st, is_inl (res (m st)) = existsb P (evs (m st)).

End Observations.

(* ================================================================== *)
(** ** The scenario of the specification, in values *)

Definition ask (w : string) : Request := mkRequest (Some w).

(** What inspection records for [words(word, definition)]. *)
Definition words_candidate : Candidate :=
  mkCandidate "dict" "words" (Some "word") ["definition"] []
              ["word"; "definition"].

(** The result expected for the row [("apple", "a fruit")]. *)
Definition apple : SearchResult :=
  mkResult "dict.words" (VStr "apple") [VStr "a fruit"] []
           (Mock.to_row ["word"; "definition"] [VStr "apple"; VStr "a fruit"]).

(** The result for the row [("apple", NULL)]. *)
Definition bare_apple : SearchResult :=
  mkResult "dict.words" (VStr "apple") [] []
           (Mock.to_row ["word"; "definition"] [VStr "apple"; VNull]).

(** The state in which the server listens, on three of the servers, with
    no DB_NAME configured. *)
Definition bare_started : State Mock.Server := post (boot "" Mock.bare).
Definition locked_started : State Mock.Server := post (boot "" Mock.locked).

(* ================================================================== *)
(** ** GET /api/health (server.js 197-206) *)

(** The statement [SELECT 1] of the liveness probe, on a connection of the
    pool. *)
Class Prober (W : Type) : Type := {
  conn_select_one : W -> (Exn + unit) * W
}.

(** What the probe does to the outside, in order. *)
Inductive HealthStep : Type :=
| HsAcquire (r : Exn + unit)
| HsSelectOne (r : Exn + unit)
| HsRelease.

(** [{ ok: true }] and [{ ok: false, error: e.message }] *)
Inductive HealthBody : Type :=
| HealthOk
| HealthDown (error : string).

Record HealthOut (W : Type) : Type := mkHealth {
  h_status : Z;
  h_body : HealthBody;
  h_world : W;
  h_steps : list HealthStep
}.
Arguments mkHealth {W} _ _ _ _.
Arguments h_status {W} _.
Arguments h_body {W} _.
Arguments h_world {W} _.
Arguments h_steps {W} _.

Section Health.
Context {W : Type} `{Driver W} `{Prober W}.

(** The three awaited calls of the [try] block run in order; the first one
    that rejects sends control to the [catch], which answers 500 with the
    message of the error.  [conn.release()] is the third call and is not in
    a [finally]. *)
Definition healthHandler (w : W) : HealthOut W :=
  match pool_getConnection w with
  | (inl e, w1) =>
      mkHealth 500 (HealthDown (message e)) w1 [HsAcquire (inl e)]
  | (inr u, w1) =>
      match conn_select_one w1 with
      | (inl e, w2) =>
          mkHealth 500 (HealthDown (message e)) w2
                   [HsAcquire (inr u); HsSelectOne (inl e)]
      | (inr u', w2) =>
          mkHealth 200 HealthOk w2
                   [HsAcquire (inr u); HsSelectOne (inr u'); HsRelease]
      end
  end.

End Health.

(** A server for the probe: the in-memory server and whether [SELECT 1]
    fails on it. *)
Module Liveness.

Record World : Type := mkWorld {
  server : Mock.Server;
  select_one_fails : bool
}.

#[global] Instance driver : Driver World := {|
  pool_getConnection := fun w =>
    let '(r, s) := pool_getConnection (server w) in
    (r, mkWorld s (select_one_fails w));
  conn_ping := fun w =>
    let '(r, s) := conn_ping (server w) in
    (r, mkWorld s (select_one_fails w));
  conn_query := fun q w =>
    let '(r, s) := conn_query q (server w) in
    (r, mkWorld s (select_one_fails w))
|}.

#[global] Instance prober : Prober World := {|
  conn_select_one := fun w =>
    (if select_one_fails w then inl Mock.failed else inr tt, w)
|}.

(** The pool is up and [SELECT 1] fails. *)
Definition stalled : World := mkWorld Mock.lexicon true.

(** The pool refuses connections. *)
Definition unreachable : World :=
  mkWorld (Mock.mkServer (Mock.catalog Mock.lexicon) Mock.no_fault true) false.

End Liveness.

(* ================================================================== *)
(** ** A run of the process

    Start-up, then requests handled one after the other.  Requests that
    overlap in time are outside the model. *)

Section Lifecycle.
Context {W : Type} `{Driver W}.

(** The trace of the requests and the state after them.  A handler whose
    promise rejects leaves its trace and its state like any other. *)
Fixpoint serve (reqs : list Request) (st : State W) : list Event * State W :=
  match reqs with
  | [] => ([], st)
  | req :: rest =>
      let o := searchHandler req st in
      let '(trace, st') := serve rest (post o) in
      (evs o ++ trace, st')
  end.

Definition session (DB_NAME : string) (w0 : W) (reqs : list Request)
    : list Event :=
  evs (boot DB_NAME w0) ++ (serve reqs (post (boot DB_NAME w0))).1.

(** The state a request finds after start-up and earlier requests. *)
Definition serving (DB_NAME : string) (w0 : W) (reqs : list Request)
    : State W :=
  (serve reqs (post (boot DB_NAME w0))).2.

End Lifecycle.

(* ================================================================== *)
(** ** More readings of a trace *)

Definition is_acquired (e : Event) : bool :=
  match e with
  | EvAcquire (inr _) => true
  | _ => false
  end.

Definition is_release (e : Event) : bool :=
  match e with
  | EvRelease => true
  | _ => false
  end.

Definition is_ping_failed (e : Event) : bool :=
  match e with
  | EvPing (inl _) => true
  | _ => false
  end.

Definition is_warn (e : Event) : bool :=
  match e with
  | EvWarn _ => true
  | _ => false
  end.

(** The statements of a trace, in the order they were sent. *)
Definition query_of (e : Event) : option Query :=
  match e with
  | EvQuery q _ => Some q
  | _ => None
  end.

Definition queries_sent (trace : list Event) : list Query :=
  omap query_of trace.

(** The SELECT of the candidate phase for a candidate (server.js 127-130). *)
Definition candidate_select (w : string) (c : Candidate) : Query :=
  SelectWhereLower (db c) (table c) (key_of (wordCol c)) w 50.

(** The names a candidate records are in lower case. *)
Definition lower_case (s : string) : Prop := toLowerCase s = s.

Definition candidate_lower (c : Candidate) : Prop :=
  Forall lower_case (cols c)
  /\ Forall lower_case (key_of (wordCol c) :: defCols c ++ exCols c).

(** Connections taken from the pool, and connections given back. *)
Definition acquired (trace : list Event) : nat :=
  length (List.filter is_acquired trace).

Definition released (trace : list Event) : nat :=
  length (List.filter is_release trace).

(** The database a statement names. *)
Definition query_db (q : Query) : option string :=
  match q with
  | ShowDatabases => None
  | ShowTablesFrom d => Some d
  | Describe d _ => Some d
  | SelectWhereLower d _ _ _ _ => Some d
  end.

Definition touches_system (e : Event) : bool :=
  match e with
  | EvQuery q _ =>
      match query_db q with
      | Some d => includes SYSTEM_SCHEMAS d
      | None => false
      end
  | _ => false
  end.

(** A SELECT compares a word-vocabulary column with [w], at most 50 or 25
    rows; any other event passes. *)
Definition select_ok (w : string) (e : Event) : bool :=
  match e with
  | EvQuery (SelectWhereLower _ _ col w' limit) _ =>
      includes WORD_COLUMNS col && String.eqb w' w
      && (Nat.eqb limit 50 || Nat.eqb limit 25)
  | _ => true
  end.

(** The number of rows the SELECTs of a trace brought back. *)
Definition rows_returned (trace : list Event) : nat :=
  length (concat (select_replies trace)).

(** A SELECT of the candidate phase (the one limited to 50 rows) that
    failed. *)
Definition is_failed_candidate_select (e : Event) : bool :=
  match e with
  | EvQuery (SelectWhereLower _ _ _ _ limit) (inl _) => Nat.eqb limit 50
  | _ => false
  end.

(** The statement, if it names a database, names [d]. *)
Definition scoped_to (d : string) (e : Event) : bool :=
  match e with
  | EvQuery q _ =>
      match query_db q with
      | Some d' => String.eqb d' d
      | None => true
      end
  | _ => true
  end.

(** The in-memory server with a pool that refuses every connection. *)
Definition refusing : Mock.Server :=
  Mock.mkServer (Mock.catalog Mock.lexicon) Mock.no_fault true.

(** What start-up guarantees of a candidate beyond [candidate_ok]: its
    database is not a system schema and its word column is taken from the
    vocabulary. *)
Definition candidate_sound (c : Candidate) : Prop :=
  includes SYSTEM_SCHEMAS (db c) = false
  /\ exists w, wordCol c = Some w /\ In w WORD_COLUMNS.

Definition all_sound (s : InspectionSummary) : Prop :=
  Forall candidate_sound (candidates s).

(** The three recorded column lists, said from the vocabularies: the word
    column is the first vocabulary name among the columns, the definition
    and example columns are the vocabulary names among the columns, in
    vocabulary order, and there is at least one of them. *)
Definition candidate_exact (c : Candidate) : Prop :=
  (exists w before after,
      wordCol c = Some w
      /\ WORD_COLUMNS = before ++ w :: after
      /\ In w (cols c)
      /\ forall x, In x before -> ~ In x (cols c))
  /\ (forall x, In x (defCols c) <-> In x DEF_COLUMNS /\ In x (cols c))
  /\ (forall x, In x (exCols c) <-> In x EX_COLUMNS /\ In x (cols c))
  /\ sublist (defCols c) DEF_COLUMNS
  /\ sublist (exCols c) EX_COLUMNS
  /\ (defCols c <> [] \/ exCols c <> []).

Definition all_exact (s : InspectionSummary) : Prop :=
  Forall candidate_exact (candidates s).

(** The reply of MySQL to [SHOW TABLES FROM d]: one row per table, with the
    single property [Tables_in_d]. *)
Definition show_tables_reply (d : string) (names : list string) : list TableRow :=
  map (fun n => [("Tables_in_" +:+ d, n)]) names.

(* ================================================================== *)
(** ** What the specification says, to compare with the code *)

(** server.js 116, the answer to a request without a word. *)
Definition bad_request : Response :=
  mkResponse 400 (BodyError "Missing required query parameter: word").

(** *** The row mapping *)





(** *** The fallback phase, as a script

    "Re-enumerates all non-system databases/tables, and for every table
    that has any word-vocabulary column runs the same equality match capped
    at 25 rows."  The script reads a trace and checks that it is such a run,
    given what the server answered along the way: SHOW DATABASES; then for
    each database that is not a system schema, in the order of the answer,
    SHOW TABLES; then for each table read from that answer DESCRIBE, and,
    when the lower-cased fields hold a word-vocabulary name, the SELECT on
    the first such name limited to 25 rows.  A failing DESCRIBE or SELECT
    goes on with the next table; a failing listing ends the phase. *)

Definition databases_listed (e : Event) : option (Exn + list string) :=
  match e with
  | EvQuery q r =>
      match q return Exn + ReplyOf q -> option (Exn + list string) with
      | ShowDatabases => fun r => Some r
      | _ => fun _ => None
      end r
  | _ => None
  end.

Definition tables_listed (e : Event) : option (string * (Exn + list TableRow)) :=
  match e with
  | EvQuery q r =>
      match q return Exn + ReplyOf q -> option (string * (Exn + list TableRow)) with
      | ShowTablesFrom d => fun r => Some (d, r)
      | _ => fun _ => None
      end r
  | _ => None
  end.

Definition described (e : Event) : option (string * string * (Exn + list string)) :=
  match e with
  | EvQuery q r =>
      match q return Exn + ReplyOf q -> option (string * string * (Exn + list string)) with
      | Describe d t => fun r => Some (d, t, r)
      | _ => fun _ => None
      end r
  | _ => None
  end.

Definition is_select (d t col w : string) (limit : nat) (e : Event) : bool :=
  match e with
  | EvQuery (SelectWhereLower d' t' col' w' limit') _ =>
      String.eqb d' d && String.eqb t' t && String.eqb col' col
      && String.eqb w' w && Nat.eqb limit' limit
  | _ => false
  end.

Definition non_system (d : string) : bool :=
  negb (existsb (String.eqb d) SYSTEM_SCHEMAS).

(** The first word-vocabulary name among the lower-cased fields. *)
Definition word_column (fields : list string) : option string :=
  find (fun v => existsb (String.eqb v) (map toLowerCase fields)) WORD_COLUMNS.

Definition is_nil {A} (l : list A) : bool :=
  match l with [] => true | _ => false end.

(** The walk over the tables [ts] of [d]: what is left of the trace after
    it, or [None] when the trace is not such a walk. *)
Fixpoint tables_script (w d : string) (ts : list string) (trace : list Event)
    : option (list Event) :=
  match ts with
  | [] => Some trace
  | t :: ts' =>
      match trace with
      | e :: rest =>
          match described e with
          | Some (d', t', r) =>
              if String.eqb d' d && String.eqb t' t then
                match r with
                | inl _ => tables_script w d ts' rest
                | inr fields =>
                    match word_column fields with
                    | None => tables_script w d ts' rest
                    | Some col =>
                        match rest with
                        | e2 :: rest2 =>
                            if is_select d t col w 25 e2
                            then tables_script w d ts' rest2
                            else None
                        | [] => None
                        end
                    end
                end
              else None
          | None => None
          end
      | [] => None
      end
  end.

Fixpoint databases_script (w : string) (ds : list string) (trace : list Event)
    : bool :=
  match ds with
  | [] => is_nil trace
  | d :: ds' =>
      match trace with
      | e :: rest =>
          match tables_listed e with
          | Some (d', r) =>
              String.eqb d' d
              && match r with
                 | inl _ => is_nil rest
                 | inr rows =>
                     match tables_script w d (tableNamesOf d rows) rest with
                     | Some rest' => databases_script w ds' rest'
                     | None => false
                     end
                 end
          | None => false
          end
      | [] => false
      end
  end.

Definition fallback_script (w : string) (trace : list Event) : bool :=
  match trace with
  | e :: rest =>
      match databases_listed e with
      | Some (inl _) => is_nil rest
      | Some (inr dbs) => databases_script w (List.filter non_system dbs) rest
      | None => false
      end
  | [] => false
  end.

(** A statement that only the fallback phase sends. *)
Definition is_fallback_statement (e : Event) : bool :=
  match e with
  | EvQuery (SelectWhereLower _ _ _ _ limit) _ => Nat.eqb limit 25
  | EvQuery _ _ => true
  | _ => false
  end.

(** *** Inspection and its errors *)








(** The databases whose tables were listed, in order. *)
Definition tables_db (q : Query) : option string :=
  match q with
  | ShowTablesFrom d => Some d
  | _ => None
  end.

Definition walked (trace : list Event) : list string :=
  omap tables_db (queries_sent trace).

Section Specifications.
Context {W : Type} `{Driver W}.




End Specifications.

(* ================================================================== *)
(** ** Facts about strings and values *)

Lemma includes_In (xs : list string) (x : string) :
  includes xs x = true <-> In x xs.
Proof.
  unfold includes. rewrite existsb_exists. split.
  - intros [y [Hy Heq]]. apply String.eqb_eq in Heq. now subst.
  - intros Hin. exists x. split; [assumption | apply String.eqb_refl].
Qed.

Lemma existsb_includes (vocab cs : list string) :
  existsb (includes cs) vocab = true <-> exists x, In x vocab /\ In x cs.
Proof.
  rewrite existsb_exists. split; intros [x [Hx Hc]]; exists x; split; auto;
    now apply includes_In.
Qed.

Lemma trimEnd_empty (s : string) : trimEnd s = EmptyString <-> all_ws s = true.
Proof.
  induction s as [|c s IH]; simpl; [tauto|].
  destruct (trimEnd s) eqn:E.
  - destruct (is_ws c); simpl.
    + rewrite <- IH. tauto.
    + split; discriminate.
  - split; [discriminate|]. intros Hc.
    apply andb_prop in Hc as [_ Hs]. apply IH in Hs. discriminate.
Qed.

Lemma all_ws_trimStart (s : string) : all_ws (trimStart s) = all_ws s.
Proof.
  induction s as [|c s IH]; simpl; [reflexivity|].
  destruct (is_ws c) eqn:E; simpl; [assumption | now rewrite E].
Qed.

Lemma trim_empty (s : string) : trim s = EmptyString <-> all_ws s = true.
Proof. unfold trim. now rewrite trimEnd_empty, all_ws_trimStart. Qed.

Lemma blank_wordOf (req : Request) : blank req <-> wordOf req = EmptyString.
Proof.
  unfold blank, wordOf. destruct (query_word req) as [s|]; simpl.
  - symmetry. apply trim_empty.
  - tauto.
Qed.

Lemma Boolean_false (v : value) :
  Boolean v = false <->
  v = VUndefined \/ v = VNull \/ v = VStr EmptyString \/ v = VNum 0
  \/ (exists den, v = VFrac 0 den) \/ v = VBool false.
Proof.
  destruct v as [| |s|n|num den|b|]; simpl.
  - tauto.
  - tauto.
  - rewrite negb_false_iff, String.eqb_eq. split.
    + intros ->. tauto.
    + intros [?|[?|[E|[?|[[d ?]|?]]]]]; try discriminate. now inversion E.
  - rewrite negb_false_iff, Z.eqb_eq. split.
    + intros ->. tauto.
    + intros [?|[?|[?|[E|[[d ?]|?]]]]]; try discriminate. now inversion E.
  - rewrite negb_false_iff, Z.eqb_eq. split.
    + intros ->. right. right. right. right. left. now exists den.
    + intros [?|[?|[?|[?|[[d E]|?]]]]]; try discriminate. now inversion E.
  - split.
    + intros ->. tauto.
    + intros [?|[?|[?|[?|[[d ?]|E]]]]]; try discriminate. now inversion E.
  - split; [discriminate|].
    intros [?|[?|[?|[?|[[d ?]|?]]]]]; discriminate.
Qed.

(* ================================================================== *)
(** ** Facts about the monad *)

Section Facts.
Context {W : Type} `{Driver W}.

Lemma total_ret {A} (a : A) : total (W:=W) (ret a).
Proof. intros st. now exists a. Qed.

Lemma total_emit e : total (W:=W) (emit e).
Proof. intros st. now exists tt. Qed.

Lemma total_bind {A B} (m : M W A) (f : A -> M W B) :
  total m -> (forall a, total (f a)) -> total (bind m f).
Proof.
  intros Hm Hf st. unfold bind. destruct (Hm st) as [a Ha]. rewrite Ha.
  destruct (Hf a (post (m st))) as [b Hb]. now exists b.
Qed.

Lemma total_try_catch {A} (m : M W A) (h : Exn -> M W A) :
  (forall e, total (h e)) -> total (try_catch m h).
Proof.
  intros Hh st. unfold try_catch. destruct (res (m st)) as [e|a] eqn:E.
  - destruct (Hh e (post (m st))) as [b Hb]. now exists b.
  - now exists a.
Qed.

Lemma total_foldM {A B} (body : B -> A -> M W B) (xs : list A) :
  (forall acc x, total (body acc x)) -> forall acc, total (foldM body xs acc).
Proof.
  intros Hb. induction xs as [|x xs IH]; intros acc; simpl.
  - apply total_ret.
  - apply total_bind; auto.
Qed.

Lemma emits_ret {A} Q (a : A) : emits (W:=W) Q (ret a).
Proof. intros st. constructor. Qed.

Lemma emits_gets {A} Q (f : State W -> A) : emits Q (gets f).
Proof. intros st. constructor. Qed.

Lemma emits_modify Q f : emits (W:=W) Q (modify_summary f).
Proof. intros st. constructor. Qed.

Lemma emits_emit (Q : Event -> Prop) e : Q e -> emits (W:=W) Q (emit e).
Proof. intros He st. simpl. auto. Qed.

Lemma emits_query (Q : Event -> Prop) q :
  (forall r, Q (EvQuery q r)) -> emits Q (query q).
Proof.
  intros Hq st. unfold query. destruct (conn_query q (world st)). simpl. auto.
Qed.

Lemma emits_bind {A B} Q (m : M W A) (f : A -> M W B) :
  emits Q m -> (forall a, emits Q (f a)) -> emits Q (bind m f).
Proof.
  intros Hm Hf st. unfold bind. destruct (res (m st)) as [e|a]; simpl.
  - apply Hm.
  - apply Forall_app. split; [apply Hm | apply Hf].
Qed.

Lemma emits_try_catch {A} Q (m : M W A) (h : Exn -> M W A) :
  emits Q m -> (forall e, emits Q (h e)) -> emits Q (try_catch m h).
Proof.
  intros Hm Hh st. unfold try_catch. destruct (res (m st)) as [e|a]; simpl.
  - apply Forall_app. split; [apply Hm | apply Hh].
  - apply Hm.
Qed.

Lemma emits_finally {A} Q (m : M W A) (f : M W unit) :
  emits Q m -> emits Q f -> emits Q (finally m f).
Proof.
  intros Hm Hf st. unfold finally. simpl.
  apply Forall_app. split; [apply Hm | apply Hf].
Qed.

Lemma emits_getConnection (Q : Event -> Prop) :
  (forall r, Q (EvAcquire r)) -> emits Q getConnection.
Proof.
  intros Hq st. unfold getConnection.
  destruct (pool_getConnection (world st)). simpl. auto.
Qed.

Lemma emits_ping (Q : Event -> Prop) :
  (forall r, Q (EvPing r)) -> emits Q ping.
Proof.
  intros Hq st. unfold ping. destruct (conn_ping (world st)). simpl. auto.
Qed.

Lemma existsb_quiet {A} (P : Event -> bool) (m : M W A) (st : State W) :
  emits (fun e => P e = false) m -> existsb P (evs (m st)) = false.
Proof.
  intros He. specialize (He st).
  induction He as [|x l Hx _ IH]; simpl; [reflexivity|]. now rewrite Hx.
Qed.

Lemma emits_foldM {A B} Q (body : B -> A -> M W B) (xs : list A) :
  (forall acc x, emits Q (body acc x)) -> forall acc, emits Q (foldM body xs acc).
Proof.
  intros Hb. induction xs as [|x xs IH]; intros acc; simpl.
  - apply emits_ret.
  - apply emits_bind; auto.
Qed.

Lemma emits_forM {A} Q (xs : list A) (body : A -> M W unit) :
  (forall x, emits Q (body x)) -> emits Q (forM_ xs body).
Proof.
  intros Hb. induction xs as [|x xs IH]; simpl.
  - apply emits_ret.
  - apply emits_bind; auto.
Qed.

Lemma keeps_ret {A} I (a : A) : keeps (W:=W) I (ret a).
Proof. intros st. auto. Qed.

Lemma keeps_emit I e : keeps (W:=W) I (emit e).
Proof. intros st. auto. Qed.

Lemma keeps_query I q : keeps I (query q).
Proof.
  intros st. unfold query. now destruct (conn_query q (world st)).
Qed.

Lemma keeps_getConnection I : keeps I getConnection.
Proof.
  intros st. unfold getConnection. now destruct (pool_getConnection (world st)).
Qed.

Lemma keeps_ping I : keeps I ping.
Proof. intros st. unfold ping. now destruct (conn_ping (world st)). Qed.

Lemma keeps_bind {A B} I (m : M W A) (f : A -> M W B) :
  keeps I m -> (forall a, keeps I (f a)) -> keeps I (bind m f).
Proof.
  intros Hm Hf st Hst. unfold bind. destruct (res (m st)) as [e|a]; simpl.
  - now apply Hm.
  - apply Hf. now apply Hm.
Qed.

Lemma keeps_try_catch {A} I (m : M W A) (h : Exn -> M W A) :
  keeps I m -> (forall e, keeps I (h e)) -> keeps I (try_catch m h).
Proof.
  intros Hm Hh st Hst. unfold try_catch. destruct (res (m st)) as [e|a]; simpl.
  - apply Hh. now apply Hm.
  - now apply Hm.
Qed.

Lemma keeps_finally {A} I (m : M W A) (f : M W unit) :
  keeps I m -> keeps I f -> keeps I (finally m f).
Proof. intros Hm Hf st Hst. unfold finally. simpl. apply Hf. now apply Hm. Qed.

Lemma keeps_forM {A} I (xs : list A) (body : A -> M W unit) :
  (forall x, keeps I (body x)) -> keeps I (forM_ xs body).
Proof.
  intros Hb. induction xs as [|x xs IH]; simpl.
  - apply keeps_ret.
  - apply keeps_bind; auto.
Qed.

End Facts.

(* ================================================================== *)
(** ** Schema inspection *)

Lemma existsb_find {A} (f : A -> bool) (l : list A) :
  existsb f l = true -> exists y, find f l = Some y.
Proof.
  induction l as [|a l IH]; simpl; [discriminate|].
  destruct (f a); simpl; eauto.
Qed.

Lemma qualifies_spec (cs : list string) :
  existsb (includes cs) WORD_COLUMNS
  && (existsb (includes cs) DEF_COLUMNS || existsb (includes cs) EX_COLUMNS) = true
  <-> qualifies cs.
Proof.
  unfold qualifies.
  rewrite andb_true_iff, orb_true_iff, !existsb_includes. tauto.
Qed.

(** Unfold one layer of the monad. *)
Ltac unfold_monad :=
  unfold bind, try_catch, finally, ret, emit, gets, modify_summary,
    query, getConnection, ping, release in *.

Section Inspection.
Context {W : Type} `{Driver W}.
Variable DB_NAME : string.

Lemma recordCandidate_run (d t : string) (cs : list string) (st : State W) :
  (qualifies cs ->
   exists c, db c = d /\ table c = t /\ cols c = cs /\ candidate_ok c
     /\ recordCandidate d t cs st
        = mkOut (inr tt)
            (mkState (world st)
               (mkSummary (databases (inspectionSummary st))
                          (candidates (inspectionSummary st) ++ [c]))) [])
  /\ (~ qualifies cs -> recordCandidate d t cs st = mkOut (inr tt) st []).
Proof.
  unfold recordCandidate. split; intros Hq.
  - pose proof Hq as Hb. apply qualifies_spec in Hb. rewrite Hb.
    destruct Hq as [Hw _]. apply existsb_includes in Hw.
    destruct (existsb_find _ _ Hw) as [w Hfind].
    rewrite Hfind.
    exists (mkCandidate d t (Some w) (List.filter (includes cs) DEF_COLUMNS)
              (List.filter (includes cs) EX_COLUMNS) cs).
    do 3 (split; [reflexivity|]). split; [|reflexivity].
    unfold candidate_ok. cbn [wordCol defCols exCols cols]. split; [|split].
    + exists w. split; [reflexivity|].
      apply find_some in Hfind as [_ Hin]. now apply includes_In.
    + intros x Hx. apply filter_In in Hx as [_ Hx]. now apply includes_In.
    + intros x Hx. apply filter_In in Hx as [_ Hx]. now apply includes_In.
  - destruct (_ && _) eqn:E; [|reflexivity].
    apply qualifies_spec in E. contradiction.
Qed.

Lemma qualifies_dec (cs : list string) : qualifies cs \/ ~ qualifies cs.
Proof.
  destruct (existsb (includes cs) WORD_COLUMNS
            && (existsb (includes cs) DEF_COLUMNS
                || existsb (includes cs) EX_COLUMNS)) eqn:E.
  - left. now apply qualifies_spec.
  - right. intros Hq. apply qualifies_spec in Hq. congruence.
Qed.

(** C2.  A table whose DESCRIBE succeeds is appended to the candidates
    exactly when its lower-cased columns meet the word vocabulary and
    meet the definition or the example vocabulary; otherwise the
    candidates are left as they were. *)
Theorem inspectTable_candidate_iff
    (d t : string) (st : State W) (fields : list string) (w' : W) :
  conn_query (Describe d t) (world st) = (inr fields, w') ->
  let cs := lowerFields fields in
  let before := candidates (inspectionSummary st) in
  let after := candidates (inspectionSummary (post (inspectTable d t st))) in
  ((exists c, after = before ++ [c] /\ db c = d /\ table c = t /\ cols c = cs)
   <-> qualifies cs)
  /\ (~ qualifies cs -> after = before).
Proof.
  intros Hq cs before after.
  assert (Hrun : post (inspectTable d t st)
                 = post (recordCandidate d t cs (mkState w' (inspectionSummary st)))).
  { unfold inspectTable. unfold_monad. rewrite Hq.
    cbn beta iota zeta. cbn [res post evs]. fold cs.
    now destruct (res (recordCandidate d t cs _)). }
  destruct (recordCandidate_run d t cs (mkState w' (inspectionSummary st)))
    as [Hyes Hno].
  assert (Hstay : ~ qualifies cs -> after = before).
  { intros Hc. unfold after. rewrite Hrun, (Hno Hc). reflexivity. }
  split; [split|exact Hstay].
  - intros (c & Hafter & _). destruct (qualifies_dec cs) as [Hc|Hc]; [exact Hc|].
    rewrite (Hstay Hc) in Hafter. apply (f_equal length) in Hafter.
    rewrite length_app in Hafter. simpl in Hafter. lia.
  - intros Hc. destruct (Hyes Hc) as (c & Hd & Ht & Hcs & _ & Hout).
    exists c. unfold after. rewrite Hrun, Hout. simpl. auto.
Qed.

Lemma recordCandidate_keeps (d t : string) (cs : list string) :
  keeps (W:=W) all_ok (recordCandidate d t cs).
Proof.
  intros st Hst. destruct (recordCandidate_run d t cs st) as [Hyes Hno].
  destruct (qualifies_dec cs) as [Hc|Hc].
  - destruct (Hyes Hc) as (c & _ & _ & _ & Hok & ->). simpl.
    apply Forall_app. split; [exact Hst | now constructor].
  - now rewrite (Hno Hc).
Qed.

Lemma inspectTable_keeps (d t : string) : keeps all_ok (inspectTable d t).
Proof.
  apply keeps_try_catch.
  - apply keeps_bind; [apply keeps_query|]. intros desc.
    apply recordCandidate_keeps.
  - intros e. apply keeps_emit.
Qed.

Lemma inspectDatabase_keeps (d : string) : keeps all_ok (inspectDatabase d).
Proof.
  apply keeps_bind; [apply keeps_query|]. intros tables.
  apply keeps_forM. intros t. apply inspectTable_keeps.
Qed.

Lemma inspectSchema_keeps : keeps all_ok (inspectSchema DB_NAME).
Proof.
  apply keeps_bind; [apply keeps_getConnection|]. intros _.
  apply keeps_finally; [|apply keeps_emit].
  apply keeps_bind; [apply keeps_query|]. intros dbNames.
  apply keeps_bind.
  - apply keeps_forM. intros d. apply inspectDatabase_keeps.
  - intros _ st Hst. exact Hst.
Qed.

Lemma startup_keeps : keeps all_ok (startup DB_NAME).
Proof.
  apply keeps_bind; [|intros _; apply keeps_emit].
  apply keeps_try_catch; [|intros e; apply keeps_emit].
  apply keeps_bind; [apply keeps_getConnection|]. intros _.
  apply keeps_bind; [apply keeps_ping|]. intros _.
  apply keeps_bind; [apply keeps_emit|]. intros _.
  apply inspectSchema_keeps.
Qed.

(** C3.  Every candidate that inspection has recorded by the time the
    server listens names a word column among its columns, and all its
    definition and example columns are among its columns. *)
Theorem candidates_well_formed (w0 : W) :
  Forall candidate_ok
    (candidates (inspectionSummary (post (boot DB_NAME w0)))).
Proof.
  apply (startup_keeps (initialState w0)). constructor.
Qed.

Lemma filtered_system (dbNames : list string) :
  In DB_NAME SYSTEM_SCHEMAS -> filteredDbNamesOf DB_NAME dbNames = [].
Proof.
  intros Hin. unfold filteredDbNamesOf.
  assert (Hne : String.eqb DB_NAME "" = false).
  { simpl in Hin. destruct Hin as [<-|[<-|[<-|[<-|[]]]]]; reflexivity. }
  rewrite Hne. cbn [List.filter].
  apply includes_In in Hin. now rewrite Hin.
Qed.

Lemma inspectSchema_system_summary :
  In DB_NAME SYSTEM_SCHEMAS ->
  keeps (fun s => s = mkSummary [] []) (inspectSchema DB_NAME).
Proof.
  intros Hin.
  apply keeps_bind; [apply keeps_getConnection|]. intros _.
  apply keeps_finally; [|apply keeps_emit].
  apply keeps_bind; [apply keeps_query|]. intros dbNames.
  unfold inspectDatabases. rewrite (filtered_system dbNames Hin).
  intros st Hst. simpl. now rewrite Hst.
Qed.

Lemma inspectSchema_system_trace :
  In DB_NAME SYSTEM_SCHEMAS ->
  emits (fun e => is_catalog_walk e = false) (inspectSchema DB_NAME).
Proof.
  intros Hin.
  apply emits_bind; [now apply emits_getConnection|]. intros _.
  apply emits_finally; [|now apply emits_emit].
  apply emits_bind; [now apply emits_query|]. intros dbNames.
  unfold inspectDatabases. rewrite (filtered_system dbNames Hin).
  intros st. simpl. constructor.
Qed.

(** C9.  With DB_NAME set to one of the excluded system schemas, start-up
    examines no database (no SHOW TABLES and no DESCRIBE is sent) and the
    summary the server starts with has no database and no candidate. *)
Theorem system_DB_NAME_inspects_nothing (w0 : W) :
  In DB_NAME SYSTEM_SCHEMAS ->
  inspectionSummary (post (boot DB_NAME w0)) = mkSummary [] []
  /\ existsb is_catalog_walk (evs (boot DB_NAME w0)) = false.
Proof.
  intros Hin. split.
  - cut (keeps (fun s => s = mkSummary [] []) (startup DB_NAME)).
    { intros Hk. exact (Hk (initialState w0) eq_refl). }
    apply keeps_bind; [|intros _; apply keeps_emit].
    apply keeps_try_catch; [|intros e; apply keeps_emit].
    apply keeps_bind; [apply keeps_getConnection|]. intros _.
    apply keeps_bind; [apply keeps_ping|]. intros _.
    apply keeps_bind; [apply keeps_emit|]. intros _.
    now apply inspectSchema_system_summary.
  - unfold boot. apply existsb_quiet.
    apply emits_bind; [|intros _; now apply emits_emit].
    apply emits_try_catch; [|intros e; now apply emits_emit].
    apply emits_bind; [now apply emits_getConnection|]. intros _.
    apply emits_bind; [now apply emits_ping|]. intros _.
    apply emits_bind; [now apply emits_emit|]. intros _.
    now apply inspectSchema_system_trace.
Qed.

End Inspection.

(** C8.  A request whose word is absent, empty or white space only is
    answered 400 with the error body; the handler acquires no connection,
    sends no statement and leaves the state as it was. *)
Theorem blank_word_rejected {W : Type} `{Driver W} (req : Request) (st : State W) :
  blank req ->
  searchHandler req st
  = mkOut (inr (mkResponse 400 (BodyError "Missing required query parameter: word")))
          st [].
Proof.
  intros Hb. apply blank_wordOf in Hb. unfold searchHandler. rewrite Hb.
  reflexivity.
Qed.

(* ================================================================== *)
(** ** The search handler *)

Lemma per_table_not_listing (e : Event) :
  per_table e = true -> is_show_databases e = false /\ listing_failed e = false.
Proof.
  destruct e as [r|r|q r| | | |]; simpl; try discriminate; auto.
  destruct q; simpl; try discriminate; destruct r; auto.
Qed.

Section Search.
Context {W : Type} `{Driver W}.

Lemma throws_iff_quiet {A} P (m : M W A) :
  total m -> emits (fun e => P e = false) m -> throws_iff P m.
Proof.
  intros Ht He st. rewrite (existsb_quiet P m st He).
  destruct (Ht st) as [a ->]. reflexivity.
Qed.

Lemma throws_iff_bind {A B} P (m : M W A) (f : A -> M W B) :
  throws_iff P m -> (forall a, throws_iff P (f a)) -> throws_iff P (bind m f).
Proof.
  intros Hm Hf st. unfold bind. specialize (Hm st).
  destruct (res (m st)) as [e|a]; simpl in *.
  - exact Hm.
  - rewrite existsb_app, <- Hm. simpl. apply Hf.
Qed.

Lemma throws_iff_foldM {A B} P (body : B -> A -> M W B) (xs : list A) :
  (forall acc x, throws_iff P (body acc x)) ->
  forall acc, throws_iff P (foldM body xs acc).
Proof.
  intros Hb. induction xs as [|x xs IH]; intros acc; simpl.
  - intros st. reflexivity.
  - apply throws_iff_bind; auto.
Qed.

Lemma throws_iff_listing (q : Query) :
  is_listing q = true -> throws_iff listing_failed (query q).
Proof.
  intros Hq st. unfold query. destruct (conn_query q (world st)) as [[e|r] w'];
    simpl; now rewrite ?Hq.
Qed.

(** *** One candidate, then all of them *)

Lemma searchCandidate_run (w : string) (acc : list SearchResult)
    (c : Candidate) (st : State W) :
  let q := SelectWhereLower (db c) (table c) (key_of (wordCol c)) w 50 in
  let o := searchCandidate w acc c st in
  res o = inr (acc ++ map (resultOf c) (rows_of (conn_query q (world st)).1))
  /\ select_replies (evs o) = [rows_of (conn_query q (world st)).1]
  /\ Forall (fun e => per_table e = true) (evs o)
  /\ inspectionSummary (post o) = inspectionSummary st.
Proof.
  intros q o. subst o. unfold searchCandidate. unfold_monad. fold q.
  generalize (conn_query q (world st)). intros [[e|rows] w'];
    cbn [res post evs app fst snd rows_of map inspectionSummary].
  - rewrite app_nil_r. repeat split; auto.
  - repeat split; auto.
Qed.

Lemma candidates_run (w : string) (cands : list Candidate) :
  forall (acc : list SearchResult) (st : State W),
  let o := foldM (searchCandidate w) cands acc st in
  res o = inr (acc ++ map (fun p => resultOf p.1 p.2)
                        (returned_rows cands (select_replies (evs o))))
  /\ length (select_replies (evs o)) = length cands
  /\ Forall (fun e => per_table e = true) (evs o)
  /\ inspectionSummary (post o) = inspectionSummary st.
Proof.
  induction cands as [|c cands IH]; intros acc st; simpl.
  - rewrite app_nil_r. auto.
  - destruct (searchCandidate_run w acc c st) as (Hr & Hs & He & Hp).
    set (rows := rows_of _) in Hr, Hs.
    unfold bind. rewrite Hr.
    specialize (IH (acc ++ map (resultOf c) rows)
                   (post (searchCandidate w acc c st))).
    destruct IH as (Hr' & Hs' & He' & Hp'). cbn [res post evs].
    unfold select_replies in *. rewrite omap_app, Hs.
    cbn [app]. unfold returned_rows in *. cbn [zip_with concat].
    rewrite map_app, map_map. cbn [fst snd].
    repeat split.
    + rewrite Hr', <- app_assoc. reflexivity.
    + simpl. now rewrite Hs'.
    + apply Forall_app. auto.
    + congruence.
Qed.

Lemma candidatePhase_run (w : string) (st : State W) :
  let o := candidatePhase w st in
  res o = inr (map (fun p => resultOf p.1 p.2)
                 (returned_rows (candidates (inspectionSummary st))
                                (select_replies (evs o))))
  /\ length (select_replies (evs o)) = length (candidates (inspectionSummary st))
  /\ Forall (fun e => per_table e = true) (evs o)
  /\ inspectionSummary (post o) = inspectionSummary st.
Proof.
  unfold candidatePhase, bind, gets. cbn [res post evs app].
  pose proof (candidates_run w (candidates (inspectionSummary st)) [] st) as Hc.
  cbn zeta in Hc. destruct Hc as (Hr & Hs & He & Hp). rewrite Hr.
  cbn [res post evs app]. auto.
Qed.


(** *** The fallback *)

Lemma emits_weaken {A} (Q Q' : Event -> Prop) (m : M W A) :
  (forall e, Q e -> Q' e) -> emits Q m -> emits Q' m.
Proof. intros HQ Hm st. eapply Forall_impl; [apply Hm | exact HQ]. Qed.

Lemma fallbackTable_total w d acc t : total (fallbackTable w d acc t).
Proof. apply total_try_catch. intros e. apply total_ret. Qed.

Lemma fallbackTable_emits w d acc t :
  emits (fun e => per_table e = true) (fallbackTable w d acc t).
Proof.
  apply emits_try_catch; [|intros e; apply emits_ret].
  apply emits_bind; [now apply emits_query|]. intros desc. cbn zeta.
  destruct (falsy _); [apply emits_ret|].
  apply emits_bind; [now apply emits_query|]. intros rows. apply emits_ret.
Qed.

Lemma fallbackDatabase_throws w acc d :
  throws_iff listing_failed (fallbackDatabase w acc d).
Proof.
  apply throws_iff_bind; [now apply throws_iff_listing|]. intros tables.
  apply throws_iff_foldM. intros acc' t. apply throws_iff_quiet.
  - apply fallbackTable_total.
  - eapply emits_weaken; [|apply fallbackTable_emits].
    intros e He. now apply per_table_not_listing.
Qed.

Lemma fallbackPhase_throws w acc : throws_iff listing_failed (fallbackPhase w acc).
Proof.
  apply throws_iff_bind; [now apply throws_iff_listing|]. intros dbs. cbn zeta.
  apply throws_iff_foldM. intros acc' d. apply fallbackDatabase_throws.
Qed.

Lemma fallbackPhase_starts w acc (st : State W) :
  existsb is_show_databases (evs (fallbackPhase w acc st)) = true.
Proof.
  unfold fallbackPhase, bind, query.
  generalize (conn_query ShowDatabases (world st)). intros [[e|dbs] w'];
    reflexivity.
Qed.

(** *** The handler, case by case *)

Lemma searchBody_hit (w : string) (st : State W) (rs : list SearchResult) :
  res (candidatePhase w st) = inr rs -> rs <> [] ->
  res (searchBody w st) = inr (respond w rs)
  /\ evs (searchBody w st) = evs (candidatePhase w st).
Proof.
  intros Hr Hne. unfold searchBody, try_catch, bind. rewrite Hr.
  destruct rs as [|r rs]; [contradiction|].
  cbn [length Nat.eqb ret res post evs]. now rewrite !app_nil_r.
Qed.

Lemma searchBody_miss (w : string) (st : State W) :
  res (candidatePhase w st) = inr [] ->
  let o2 := fallbackPhase w [] (post (candidatePhase w st)) in
  res (searchBody w st)
  = inr (match res o2 with
         | inl _ => internal_error
         | inr rs => respond w rs
         end)
  /\ evs (searchBody w st)
     = evs (candidatePhase w st) ++ evs o2
       ++ match res o2 with
          | inl e => [EvError ("Search error: " +:+ message e)]
          | inr _ => []
          end.
Proof.
  intros Hr o2. unfold searchBody, try_catch, bind. rewrite Hr.
  cbn [length Nat.eqb res post evs]. fold o2.
  destruct (res o2) as [e|rs]; cbn [ret emit res post evs].
  - now rewrite <- app_assoc.
  - now rewrite !app_nil_r.
Qed.

Lemma searchHandler_run (req : Request) (st : State W) (w1 : W) :
  wordOf req <> "" ->
  pool_getConnection (world st) = (inr tt, w1) ->
  let body := searchBody (wordOf req) (mkState w1 (inspectionSummary st)) in
  res (searchHandler req st) = res body
  /\ evs (searchHandler req st) = EvAcquire (inr tt) :: evs body ++ [EvRelease].
Proof.
  intros Hw Hp body. unfold searchHandler.
  destruct (String.eqb_spec (wordOf req) "") as [E|_]; [contradiction|].
  unfold bind, getConnection, finally, release, emit. rewrite Hp.
  cbn [res post evs]. fold body. destruct (res body); auto.
Qed.

Lemma searchHandler_refused (req : Request) (st : State W) (e : Exn) (w1 : W) :
  wordOf req <> "" ->
  pool_getConnection (world st) = (inl e, w1) ->
  res (searchHandler req st) = inl e
  /\ evs (searchHandler req st) = [EvAcquire (inl e)].
Proof.
  intros Hw Hp. unfold searchHandler.
  destruct (String.eqb_spec (wordOf req) "") as [E|_]; [contradiction|].
  unfold bind, getConnection. rewrite Hp. auto.
Qed.


Lemma phase1_reached (req : Request) (st : State W) (rs : list SearchResult) :
  phase1 req st = Some rs ->
  exists w1,
    wordOf req <> ""
    /\ pool_getConnection (world st) = (inr tt, w1)
    /\ post (getConnection st) = mkState w1 (inspectionSummary st)
    /\ res (candidatePhase (wordOf req) (mkState w1 (inspectionSummary st)))
       = inr rs.
Proof.
  unfold phase1, getConnection.
  destruct (String.eqb_spec (wordOf req) "") as [E|Hw]; [discriminate|].
  destruct (pool_getConnection (world st)) as [[e|[]] w1];
    cbn [res post]; [discriminate|].
  destruct (res (candidatePhase _ _)) as [e|rs'] eqn:Hr; [discriminate|].
  intros [= ->]. exists w1. auto.
Qed.

Lemma phase1_quiet (P : Event -> bool) (w : string) (st : State W) :
  (forall e, per_table e = true -> P e = false) ->
  existsb P (evs (candidatePhase w st)) = false.
Proof.
  intros HP. apply existsb_quiet. intros st'.
  eapply Forall_impl; [apply candidatePhase_run | exact HP].
Qed.

(** The guard of server.js 148: SHOW DATABASES is sent exactly when the
    candidate phase ran and produced no result. *)
Theorem fallback_iff_no_candidate_result (req : Request) (st : State W) :
  fallback_ran (evs (searchHandler req st)) = true <-> phase1 req st = Some [].
Proof.
  unfold fallback_ran. split.
  - intros Hf. unfold phase1, getConnection.
    destruct (String.eqb_spec (wordOf req) "") as [E|Hw].
    { unfold searchHandler in Hf. rewrite E in Hf. discriminate. }
    destruct (pool_getConnection (world st)) as [[e|[]] w1] eqn:Hp; cbn [res post].
    { destruct (searchHandler_refused req st e w1 Hw Hp) as [_ He].
      rewrite He in Hf. discriminate. }
    destruct (searchHandler_run req st w1 Hw Hp) as [_ He].
    rewrite He in Hf. clear He. cbn [existsb is_show_databases] in Hf.
    rewrite existsb_app in Hf. cbn in Hf. rewrite orb_false_r in Hf.
    set (st1 := mkState w1 (inspectionSummary st)) in *.
    destruct (candidatePhase_run (wordOf req) st1) as (Hr & _).
    rewrite Hr. destruct (map _ _) as [|r rs] eqn:Hrs; [reflexivity|].
    destruct (searchBody_hit (wordOf req) st1 (r :: rs) Hr) as [_ He];
      [discriminate|].
    rewrite He, phase1_quiet in Hf; [discriminate|].
    intros e. apply per_table_not_listing.
  - intros Hp1. destruct (phase1_reached req st [] Hp1) as (w1 & Hw & Hp & _ & Hr).
    destruct (searchHandler_run req st w1 Hw Hp) as [_ He]. rewrite He.
    destruct (searchBody_miss (wordOf req) _ Hr) as [_ Hb]. rewrite Hb.
    cbn [existsb is_show_databases]. rewrite !existsb_app.
    rewrite fallbackPhase_starts. cbn. now rewrite orb_true_r.
Qed.

Lemma respond_status (w : string) (rs : list SearchResult) :
  status (respond w rs) <> 500%Z.
Proof. unfold respond. now destruct (Nat.eqb _ _). Qed.

(** A request is answered with the status 500 exactly when a statement
    that lists the catalog (SHOW DATABASES, or SHOW TABLES of one database)
    failed. *)
Theorem internal_error_iff_listing_failed (req : Request) (st : State W) :
  (exists r, res (searchHandler req st) = inr r /\ status r = 500%Z)
  <-> existsb listing_failed (evs (searchHandler req st)) = true.
Proof.
  destruct (String.eqb_spec (wordOf req) "") as [E|Hw].
  { unfold searchHandler. rewrite E. cbn. split; [|discriminate].
    intros (r & [= <-] & Hs). discriminate. }
  destruct (pool_getConnection (world st)) as [[e|[]] w1] eqn:Hp.
  { destruct (searchHandler_refused req st e w1 Hw Hp) as [Hr He].
    rewrite Hr, He. cbn. split; [|discriminate]. intros (r & Hx & _).
    discriminate. }
  destruct (searchHandler_run req st w1 Hw Hp) as [Hr He].
  rewrite Hr, He. clear Hr He.
  set (st1 := mkState w1 (inspectionSummary st)).
  cbn [existsb listing_failed]. rewrite existsb_app. cbn [existsb listing_failed].
  rewrite !orb_false_r. cbn [orb].
  destruct (candidatePhase_run (wordOf req) st1) as (Hc & _).
  destruct (map _ _) as [|r0 rs] eqn:Hrs.
  - destruct (searchBody_miss (wordOf req) st1 Hc) as [Hr He].
    rewrite Hr, He, !existsb_app.
    rewrite phase1_quiet by (intros e; apply per_table_not_listing).
    rewrite <- (fallbackPhase_throws (wordOf req) []). cbn [orb].
    destruct (res (fallbackPhase _ _ _)) as [e|rs2]; cbn.
    + split; [reflexivity|]. intros _. now exists internal_error.
    + split; [|discriminate]. intros (r & [= <-] & Hs).
      now apply respond_status in Hs.
  - destruct (searchBody_hit (wordOf req) st1 (r0 :: rs) Hc) as [Hr He];
      [discriminate|].
    rewrite Hr, He.
    rewrite phase1_quiet by (intros e; apply per_table_not_listing).
    split; [|discriminate]. intros (r & [= <-] & Hs).
    now apply respond_status in Hs.
Qed.



(** C10.  Every row a candidate query returns becomes a result, whatever
    its definitions and examples; and as soon as one row is returned the
    fallback phase does not run and the answer is 200 with those
    results. *)
Theorem matched_rows_suppress_fallback
    (req : Request) (st : State W) (rs : list SearchResult) :
  phase1 req st = Some rs ->
  let rows := returned_rows (candidates (inspectionSummary st))
                            (select_replies (phase1_trace req st)) in
  rs = map (fun p => resultOf p.1 p.2) rows
  /\ (rows <> [] ->
      fallback_ran (evs (searchHandler req st)) = false
      /\ res (searchHandler req st)
         = inr (mkResponse 200 (BodyFound (wordOf req) (length rows) rs))).
Proof.
  intros Hp1 rows.
  destruct (phase1_reached req st rs Hp1) as (w1 & Hw & Hp & Hpost & Hr).
  set (st1 := mkState w1 (inspectionSummary st)) in *.
  destruct (candidatePhase_run (wordOf req) st1) as (Hc & _).
  assert (Hrs : rs = map (fun p => resultOf p.1 p.2) rows).
  { unfold rows, phase1_trace. rewrite Hpost. fold st1.
    rewrite Hc in Hr. now injection Hr as <-. }
  split; [exact Hrs|]. intros Hne.
  assert (Hrs' : rs <> []).
  { rewrite Hrs. destruct rows; [contradiction|discriminate]. }
  destruct (searchHandler_run req st w1 Hw Hp) as [Hres Hevs].
  destruct (searchBody_hit (wordOf req) st1 rs Hr Hrs') as [Hb He].
  fold st1 in Hres, Hevs. rewrite Hres, Hevs, Hb, He. split.
  - unfold fallback_ran. cbn [existsb is_show_databases orb].
    rewrite existsb_app. cbn [existsb is_show_databases orb].
    rewrite phase1_quiet by (intros e; apply per_table_not_listing).
    reflexivity.
  - assert (Hlen : length rows = length rs) by (now rewrite Hrs, length_map).
    rewrite Hlen. unfold respond. now destruct rs.
Qed.

End Search.

(* ================================================================== *)
(** ** Start-up when a step of the inspection fails *)

Section Startup.
Context {W : Type} `{Driver W}.
Variable DB_NAME : string.

Lemma inspectDatabases_emits (dbNames : list string) :
  emits (fun e => show_databases_failed e = false)
        (inspectDatabases DB_NAME dbNames).
Proof.
  apply emits_bind; [|intros _; apply emits_modify].
  apply emits_forM. intros d.
  apply emits_bind; [now apply emits_query|]. intros tables.
  apply emits_forM. intros t.
  apply emits_try_catch; [|intros e; now apply emits_emit].
  apply emits_bind; [now apply emits_query|]. intros desc.
  unfold recordCandidate. destruct (_ && _);
    [apply emits_modify | apply emits_ret].
Qed.

Lemma inspectSchema_run (st : State W) :
  inspectSchema DB_NAME st
  = match pool_getConnection (world st) with
    | (inl e, w1) =>
        mkOut (inl e) (mkState w1 (inspectionSummary st)) [EvAcquire (inl e)]
    | (inr u, w1) =>
        match conn_query ShowDatabases w1 with
        | (inl e, w2) =>
            mkOut (inl e) (mkState w2 (inspectionSummary st))
                  [EvAcquire (inr u); EvQuery ShowDatabases (inl e); EvRelease]
        | (inr dbNames, w2) =>
            let o := inspectDatabases DB_NAME dbNames
                       (mkState w2 (inspectionSummary st)) in
            mkOut (res o) (post o)
                  (EvAcquire (inr u) :: EvQuery ShowDatabases (inr dbNames)
                   :: evs o ++ [EvRelease])
        end
    end.
Proof.
  unfold inspectSchema, bind, getConnection, finally, query, release, emit.
  destruct (pool_getConnection (world st)) as [[e|u] w1];
    cbn [res post evs world inspectionSummary app]; [reflexivity|].
  destruct (conn_query ShowDatabases w1) as [[e|dbNames] w2];
    cbn [res post evs world inspectionSummary app]; [reflexivity|].
  now destruct (res (inspectDatabases DB_NAME dbNames _)).
Qed.

Lemma inspectSchema_listing_failed (st : State W) :
  existsb show_databases_failed (evs (inspectSchema DB_NAME st)) = true ->
  is_inl (res (inspectSchema DB_NAME st)) = true
  /\ inspectionSummary (post (inspectSchema DB_NAME st)) = inspectionSummary st.
Proof.
  rewrite inspectSchema_run.
  destruct (pool_getConnection (world st)) as [[e|u] w1];
    cbn [res post evs existsb show_databases_failed orb]; [discriminate|].
  destruct (conn_query ShowDatabases w1) as [[e|dbNames] w2];
    cbn [res post evs existsb show_databases_failed orb inspectionSummary];
    [auto|].
  rewrite existsb_app.
  rewrite (existsb_quiet _ _ _ (inspectDatabases_emits dbNames)).
  cbn. discriminate.
Qed.

Lemma connectAndInspect_failed (st : State W) :
  existsb show_databases_failed (evs (connectAndInspect DB_NAME st)) = true ->
  is_inl (res (connectAndInspect DB_NAME st)) = true
  /\ inspectionSummary (post (connectAndInspect DB_NAME st))
     = inspectionSummary st.
Proof.
  unfold connectAndInspect, bind, getConnection, ping, release, emit.
  destruct (pool_getConnection (world st)) as [[e|u] w1];
    cbn [res post evs world inspectionSummary]; [discriminate|].
  destruct (conn_ping w1) as [[e|u'] w2];
    cbn [res post evs world inspectionSummary]; [discriminate|].
  set (st2 := mkState w2 (inspectionSummary st)).
  cbn [app existsb show_databases_failed orb]. intros Hf.
  apply (inspectSchema_listing_failed st2) in Hf. exact Hf.
Qed.

Lemma startup_run (st : State W) :
  let o := connectAndInspect DB_NAME st in
  startup DB_NAME st
  = mkOut (inr tt) (post o)
      (evs o
       ++ match res o with
          | inl e => [EvError ("Failed to connect or inspect schema: "
                               +:+ message e); EvListen]
          | inr _ => [EvListen]
          end).
Proof.
  intros o. unfold startup, bind, try_catch, emit. fold o.
  destruct (res o) as [e|[]] eqn:E; cbn [res post evs].
  - now rewrite <- app_assoc.
  - now rewrite E.
Qed.

(** When SHOW DATABASES fails during start-up, the failure is logged, the
    server listens all the same, and the summary it starts with has no
    candidate. *)
Theorem show_databases_failure_leaves_no_candidate (w0 : W) :
  existsb show_databases_failed (evs (boot DB_NAME w0)) = true ->
  res (boot DB_NAME w0) = inr tt
  /\ candidates (inspectionSummary (post (boot DB_NAME w0))) = []
  /\ existsb is_error_log (evs (boot DB_NAME w0)) = true
  /\ last (evs (boot DB_NAME w0)) = Some EvListen.
Proof.
  unfold boot. rewrite startup_run. cbn [res post evs].
  pose proof (connectAndInspect_failed (initialState w0)) as Hc.
  destruct (res (connectAndInspect DB_NAME (initialState w0))) as [e|u];
    rewrite !existsb_app; cbn [existsb show_databases_failed is_error_log orb];
    rewrite ?orb_false_r; intros Hf;
    destruct (Hc Hf) as [Hthrow Hsum]; [|discriminate].
  rewrite Hsum. repeat split.
  - now rewrite orb_true_r.
  - match goal with
    | |- last (?l ++ [?a; ?b]) = _ =>
        replace (l ++ [a; b]) with ((l ++ [a]) ++ [b])
          by (now rewrite <- app_assoc)
    end.
    apply last_snoc.
Qed.

End Startup.

(* ================================================================== *)
(** ** The scenario of the specification *)

Section Lexicon.
Import Mock.

(** A database name that the server does not know. *)
Variable DB_NAME : string.
Hypothesis named : DB_NAME <> "".
Hypothesis not_system : ~ In DB_NAME SYSTEM_SCHEMAS.
Hypothesis not_dict : DB_NAME <> "dict".

Lemma unknown_filtered (dbNames : list string) :
  filteredDbNamesOf DB_NAME dbNames = [DB_NAME].
Proof.
  unfold filteredDbNamesOf.
  destruct (String.eqb_spec DB_NAME "") as [E|_]; [contradiction|].
  cbn [List.filter].
  destruct (includes SYSTEM_SCHEMAS DB_NAME) eqn:E; [|reflexivity].
  apply includes_In in E. contradiction.
Qed.

Lemma unknown_database : find_db (catalog lexicon) DB_NAME = None.
Proof.
  unfold find_db. cbn [catalog lexicon find d_name].
  destruct (String.eqb_spec "information_schema" DB_NAME) as [E|_].
  { exfalso. apply not_system. rewrite <- E. cbn. auto. }
  destruct (String.eqb_spec "mysql" DB_NAME) as [E|_].
  { exfalso. apply not_system. rewrite <- E. cbn. auto. }
  destruct (String.eqb_spec "dict" DB_NAME) as [E|_]; [|reflexivity].
  now symmetry in E.
Qed.

Lemma unknown_boot :
  post (boot DB_NAME lexicon) = mkState lexicon (mkSummary [] []).
Proof.
  unfold boot. rewrite startup_run. cbn [post].
  unfold connectAndInspect, bind, getConnection, ping, release, emit.
  cbn [pool_getConnection conn_ping driver initialState world pool_down
       lexicon res post evs inspectionSummary].
  rewrite inspectSchema_run.
  cbn [pool_getConnection conn_query driver world pool_down fault lexicon
       no_fault inspectionSummary reply catalog].
  cbn [res post evs].
  unfold inspectDatabases. rewrite unknown_filtered.
  cbn [forM_]. unfold inspectDatabase at 1. unfold bind, query.
  cbn [conn_query driver world fault catalog no_fault reply lexicon].
  pose proof unknown_database as Hu. cbn [catalog lexicon] in Hu. rewrite Hu.
  reflexivity.
Qed.

End Lexicon.

Section Scenarios.
Import Mock.

Lemma lexicon_boot (DB_NAME : string) :
  exists ds cs,
    post (boot DB_NAME lexicon) = mkState lexicon (mkSummary ds cs)
    /\ (cs = [] \/ cs = [words_candidate]).
Proof.
  destruct (String.eqb_spec DB_NAME "") as [->|Hn].
  { exists ["dict"], [words_candidate]. split; [vm_compute; reflexivity|auto]. }
  destruct (String.eqb_spec DB_NAME "dict") as [->|Hd].
  { exists ["dict"], [words_candidate]. split; [vm_compute; reflexivity|auto]. }
  exists [], []. split; [|auto].
  destruct (includes SYSTEM_SCHEMAS DB_NAME) eqn:Hs.
  - apply includes_In in Hs. cbn in Hs.
    destruct Hs as [<-|[<-|[<-|[<-|[]]]]]; vm_compute; reflexivity.
  - apply unknown_boot; auto.
    intros Hin. apply includes_In in Hin. congruence.
Qed.

Lemma lexicon_search (ds : list string) (cs : list Candidate) :
  cs = [] \/ cs = [words_candidate] ->
  res (searchHandler (ask "Apple") (mkState lexicon (mkSummary ds cs)))
  = inr (mkResponse 200 (BodyFound "Apple" 1 [apple])).
Proof. intros [->| ->]; vm_compute; reflexivity. Qed.

(** C6.  On a server whose only user database holds the single table
    [words(word, definition)] with the single row [("apple", "a fruit")],
    and whatever DB_NAME the process was started with, the request for
    "Apple" is answered 200 with exactly one result, whose word is the
    stored "apple" and whose definitions are ["a fruit"]. *)
Theorem apple_found (DB_NAME : string) :
  res (searchHandler (ask "Apple") (post (boot DB_NAME lexicon)))
  = inr (mkResponse 200 (BodyFound "Apple" 1 [apple]))
  /\ word apple = VStr "apple"
  /\ definitions apple = [VStr "a fruit"].
Proof.
  destruct (lexicon_boot DB_NAME) as (ds & cs & -> & Hcs).
  split; [now apply lexicon_search | split; reflexivity].
Qed.

(** The recorded column names are lower-cased (server.js 71) while the
    properties of a row keep the declared names: on a table declared as
    [Words(Word, Definition)] the row is found, and read under "word" and
    "definition" it yields nothing. *)
Example capitalised_columns_read_undefined :
  map (fun c => (wordCol c, defCols c))
      (candidates (inspectionSummary (post (boot "" capitalised))))
  = [(Some "word", ["definition"])]
  /\ map (fun r => (word r, definitions r, row_get (row r) "Definition"))
         (results_of (searchHandler (ask "apple") (post (boot "" capitalised))))
     = [(VUndefined, [], VStr "a fruit")].
Proof. split; vm_compute; reflexivity. Qed.

(** *** The theorems at work *)

Lemma inspectTable_candidate_iff_witness :
  conn_query (Describe "dict" "words") (world (initialState lexicon))
  = (inr ["word"; "definition"], lexicon)
  /\ (let cs := lowerFields ["word"; "definition"] in
      let before := candidates (inspectionSummary (initialState lexicon)) in
      let after := candidates (inspectionSummary
                     (post (inspectTable "dict" "words" (initialState lexicon)))) in
      ((exists c, after = before ++ [c] /\ db c = "dict" /\ table c = "words"
                  /\ cols c = cs)
       <-> qualifies cs)
      /\ (~ qualifies cs -> after = before)).
Proof.
  split; [reflexivity|].
  apply (inspectTable_candidate_iff "dict" "words" (initialState lexicon)
           ["word"; "definition"] lexicon).
  reflexivity.
Defined.

Lemma show_databases_failure_witness :
  existsb show_databases_failed (evs (boot "" offline)) = true
  /\ (res (boot "" offline) = inr tt
      /\ candidates (inspectionSummary (post (boot "" offline))) = []
      /\ existsb is_error_log (evs (boot "" offline)) = true
      /\ last (evs (boot "" offline)) = Some EvListen).
Proof.
  split; [reflexivity|].
  apply (show_databases_failure_leaves_no_candidate "" offline).
  reflexivity.
Defined.

Lemma blank_word_rejected_witness :
  blank (ask "   ")
  /\ searchHandler (ask "   ") (initialState lexicon)
     = mkOut (inr (mkResponse 400
                     (BodyError "Missing required query parameter: word")))
             (initialState lexicon) [].
Proof.
  split; [reflexivity|].
  apply (blank_word_rejected (ask "   ") (initialState lexicon)).
  reflexivity.
Defined.

Lemma system_DB_NAME_witness :
  In "mysql" SYSTEM_SCHEMAS
  /\ (inspectionSummary (post (boot "mysql" lexicon)) = mkSummary [] []
      /\ existsb is_catalog_walk (evs (boot "mysql" lexicon)) = false).
Proof.
  split; [simpl; auto|].
  apply (system_DB_NAME_inspects_nothing "mysql" lexicon).
  simpl. auto.
Defined.

Lemma matched_rows_witness :
  phase1 (ask "apple") bare_started = Some [bare_apple]
  /\ (let rows := returned_rows (candidates (inspectionSummary bare_started))
                    (select_replies (phase1_trace (ask "apple") bare_started)) in
      [bare_apple] = map (fun p => resultOf p.1 p.2) rows
      /\ (rows <> [] ->
          fallback_ran (evs (searchHandler (ask "apple") bare_started)) = false
          /\ res (searchHandler (ask "apple") bare_started)
             = inr (mkResponse 200
                      (BodyFound (wordOf (ask "apple")) (length rows)
                                 [bare_apple])))).
Proof.
  split; [vm_compute; reflexivity|].
  apply (matched_rows_suppress_fallback (ask "apple") bare_started [bare_apple]).
  vm_compute. reflexivity.
Defined.

(** *** Where the specification asks for more than the code does *)


(** C5 as stated fails: the only statement that errors is SHOW TABLES of
    the single database [archive], and the request is answered 500. *)
Lemma listing_one_database_gives_500 :
  failed_queries (evs (searchHandler (ask "pear") locked_started))
  = [ShowTablesFrom "archive"]
  /\ res (searchHandler (ask "pear") locked_started) = inr internal_error.
Proof. split; vm_compute; reflexivity. Qed.


End Scenarios.

(* ================================================================== *)
(** ** More facts about the monad *)

Section MoreFacts.
Context {W : Type} `{Driver W}.

Lemma keeps_gets {A} I (f : State W -> A) : keeps I (gets f).
Proof. intros st. auto. Qed.

Lemma keeps_foldM {A B} I (body : B -> A -> M W B) (xs : list A) :
  (forall acc x, keeps I (body acc x)) -> forall acc, keeps I (foldM body xs acc).
Proof.
  intros Hb. induction xs as [|x xs IH]; intros acc; simpl.
  - apply keeps_ret.
  - apply keeps_bind; auto.
Qed.

Lemma keeps_forM_Forall {A} I (P : A -> Prop) (xs : list A) (body : A -> M W unit) :
  Forall P xs -> (forall x, P x -> keeps I (body x)) -> keeps I (forM_ xs body).
Proof.
  intros Hxs Hb. induction Hxs as [|x xs Hx _ IH]; simpl.
  - apply keeps_ret.
  - apply keeps_bind; auto.
Qed.

Lemma emits_forM_Forall {A} Q (P : A -> Prop) (xs : list A) (body : A -> M W unit) :
  Forall P xs -> (forall x, P x -> emits Q (body x)) -> emits Q (forM_ xs body).
Proof.
  intros Hxs Hb. induction Hxs as [|x xs Hx _ IH]; simpl.
  - apply emits_ret.
  - apply emits_bind; auto.
Qed.

Lemma emits_foldM_Forall {A B} Q (P : A -> Prop) (body : B -> A -> M W B)
    (xs : list A) :
  Forall P xs -> (forall acc x, P x -> emits Q (body acc x)) ->
  forall acc, emits Q (foldM body xs acc).
Proof.
  intros Hxs Hb. induction Hxs as [|x xs Hx _ IH]; intros acc; simpl.
  - apply emits_ret.
  - apply emits_bind; auto.
Qed.

Lemma filter_quiet (P : Event -> bool) (l : list Event) :
  Forall (fun e => P e = false) l -> List.filter P l = [].
Proof.
  induction 1 as [|e l He _ IH]; simpl; [reflexivity|]. now rewrite He.
Qed.

Lemma existsb_quiet_list (P : Event -> bool) (l : list Event) :
  existsb P l = false <-> Forall (fun e => P e = false) l.
Proof.
  induction l as [|e l IH]; simpl.
  - split; auto.
  - rewrite orb_false_iff, IH. split.
    + intros [He Hl]. now constructor.
    + intros Hf. inversion Hf. auto.
Qed.

Lemma not_system_filter (l : list string) :
  Forall (fun d => includes SYSTEM_SCHEMAS d = false)
         (List.filter (fun d => negb (includes SYSTEM_SCHEMAS d)) l).
Proof.
  apply List.Forall_forall. intros d Hd. apply filter_In in Hd as [_ Hd].
  now apply negb_true_iff in Hd.
Qed.

(** Events of the walk over the catalog, for a property [Q] of events that
    holds of warnings and of the statements sent for the databases in
    [P]. *)
Lemma inspectDatabase_events (Q : Event -> Prop) (d : string) :
  (forall m, Q (EvWarn m)) ->
  (forall r, Q (EvQuery (ShowTablesFrom d) r)) ->
  (forall t r, Q (EvQuery (Describe d t) r)) ->
  emits Q (inspectDatabase d).
Proof.
  intros Hw Hs Hd.
  apply emits_bind; [now apply emits_query|]. intros tables.
  apply emits_forM. intros t.
  apply emits_try_catch; [|intros e; now apply emits_emit].
  apply emits_bind; [now apply emits_query|]. intros desc.
  unfold recordCandidate. destruct (_ && _);
    [apply emits_modify | apply emits_ret].
Qed.

Lemma inspectDatabases_events (Q : Event -> Prop) (DB_NAME : string)
    (dbNames : list string) :
  (forall m, Q (EvWarn m)) ->
  (forall d r, In d (filteredDbNamesOf DB_NAME dbNames) ->
               Q (EvQuery (ShowTablesFrom d) r)) ->
  (forall d t r, In d (filteredDbNamesOf DB_NAME dbNames) ->
                 Q (EvQuery (Describe d t) r)) ->
  emits Q (inspectDatabases DB_NAME dbNames).
Proof.
  intros Hw Hs Hd.
  apply emits_bind; [|intros _; apply emits_modify].
  apply (emits_forM_Forall Q (fun d => In d (filteredDbNamesOf DB_NAME dbNames))).
  - apply List.Forall_forall. auto.
  - intros d Hin. apply inspectDatabase_events; auto.
Qed.

Lemma inspectSchema_events (Q : Event -> Prop) (DB_NAME : string) :
  (forall r, Q (EvAcquire r)) -> Q EvRelease ->
  (forall m, Q (EvWarn m)) ->
  (forall r, Q (EvQuery ShowDatabases r)) ->
  (forall dbNames d r, In d (filteredDbNamesOf DB_NAME dbNames) ->
                       Q (EvQuery (ShowTablesFrom d) r)) ->
  (forall dbNames d t r, In d (filteredDbNamesOf DB_NAME dbNames) ->
                         Q (EvQuery (Describe d t) r)) ->
  emits Q (inspectSchema DB_NAME).
Proof.
  intros Ha Hr Hw Hq Hs Hd.
  apply emits_bind; [now apply emits_getConnection|]. intros _.
  apply emits_finally; [|now apply emits_emit].
  apply emits_bind; [now apply emits_query|]. intros dbNames.
  apply inspectDatabases_events; eauto.
Qed.

Lemma startup_events (Q : Event -> Prop) (DB_NAME : string) :
  (forall r, Q (EvAcquire r)) -> (forall r, Q (EvPing r)) -> Q EvRelease ->
  (forall m, Q (EvWarn m)) -> (forall m, Q (EvError m)) -> Q EvListen ->
  (forall r, Q (EvQuery ShowDatabases r)) ->
  (forall dbNames d r, In d (filteredDbNamesOf DB_NAME dbNames) ->
                       Q (EvQuery (ShowTablesFrom d) r)) ->
  (forall dbNames d t r, In d (filteredDbNamesOf DB_NAME dbNames) ->
                         Q (EvQuery (Describe d t) r)) ->
  emits Q (startup DB_NAME).
Proof.
  intros Ha Hp Hr Hw He Hl Hq Hs Hd.
  apply emits_bind; [|intros _; now apply emits_emit].
  apply emits_try_catch; [|intros e; now apply emits_emit].
  apply emits_bind; [now apply emits_getConnection|]. intros _.
  apply emits_bind; [now apply emits_ping|]. intros _.
  apply emits_bind; [now apply emits_emit|]. intros _.
  now apply inspectSchema_events.
Qed.

End MoreFacts.

(* ================================================================== *)
(** ** Start-up, in general *)

Lemma find_first {A} (f : A -> bool) (l : list A) (w : A) :
  find f l = Some w ->
  exists before after,
    l = before ++ w :: after /\ f w = true
    /\ forall x, In x before -> f x = false.
Proof.
  induction l as [|a l IH]; simpl; [discriminate|].
  destruct (f a) eqn:Ha.
  - intros [= ->]. exists [], l. repeat split; auto. intros x [].
  - intros Hf. destruct (IH Hf) as (before & after & -> & Hw & Hb).
    exists (a :: before), after. repeat split; auto.
    intros x [<-|Hx]; auto.
Qed.

Lemma sublist_filter_bool {A} (f : A -> bool) (l : list A) :
  sublist (List.filter f l) l.
Proof.
  induction l as [|a l IH]; simpl; [constructor|].
  destruct (f a); now constructor.
Qed.

Lemma filter_nonempty {A} (f : A -> bool) (l : list A) :
  existsb f l = true -> List.filter f l <> [].
Proof.
  induction l as [|a l IH]; simpl; [discriminate|].
  destruct (f a); simpl; [discriminate|exact IH].
Qed.

Lemma acquired_app (a b : list Event) :
  acquired (a ++ b) = acquired a + acquired b.
Proof. unfold acquired. now rewrite List.filter_app, length_app. Qed.

Lemma released_app (a b : list Event) :
  released (a ++ b) = released a + released b.
Proof. unfold released. now rewrite List.filter_app, length_app. Qed.

Section StartupFacts.
Context {W : Type} `{Driver W}.
Variable DB_NAME : string.

Lemma recordCandidate_pushes (d t : string) (cs : list string) (st : State W) :
  recordCandidate d t cs st = mkOut (inr tt) st []
  \/ exists c,
       recordCandidate d t cs st
       = mkOut (inr tt)
           (mkState (world st)
              (mkSummary (databases (inspectionSummary st))
                         (candidates (inspectionSummary st) ++ [c]))) []
       /\ db c = d /\ table c = t /\ cols c = cs
       /\ candidate_exact c
       /\ exists w, wordCol c = Some w /\ In w WORD_COLUMNS.
Proof.
  unfold recordCandidate.
  destruct (existsb (includes cs) WORD_COLUMNS) eqn:Hw; [|now left].
  destruct (existsb (includes cs) DEF_COLUMNS
            || existsb (includes cs) EX_COLUMNS) eqn:Hde; [|now left].
  right. cbn [andb].
  destruct (existsb_find _ _ Hw) as [w Hfind]. rewrite Hfind.
  eexists. split; [reflexivity|]. cbn [db table cols wordCol defCols exCols].
  do 3 (split; [reflexivity|]).
  destruct (find_first _ _ _ Hfind) as (before & after & Hsplit & Hin & Hb).
  split.
  - unfold candidate_exact. cbn [wordCol defCols exCols cols].
    split; [|split; [|split; [|split; [|split]]]].
    + exists w, before, after. repeat split; auto.
      * now apply includes_In.
      * intros x Hx Hc. apply includes_In in Hc. rewrite (Hb x Hx) in Hc.
        discriminate.
    + intros x. rewrite filter_In, includes_In. tauto.
    + intros x. rewrite filter_In, includes_In. tauto.
    + apply sublist_filter_bool.
    + apply sublist_filter_bool.
    + apply orb_true_iff in Hde as [Hd|He].
      * left. now apply filter_nonempty.
      * right. now apply filter_nonempty.
  - exists w. split; [reflexivity|]. apply find_some in Hfind. tauto.
Qed.

(** An invariant of the summary that holds of the candidates pushed for the
    databases inspection walks through, and does not look at [databases],
    holds after start-up. *)
Lemma startup_keeps_if (I : Candidate -> Prop) :
  (forall dbNames c, In (db c) (filteredDbNamesOf DB_NAME dbNames) ->
                     candidate_exact c ->
                     (exists w, wordCol c = Some w /\ In w WORD_COLUMNS) ->
                     I c) ->
  keeps (fun s => Forall I (candidates s)) (startup DB_NAME).
Proof.
  intros HI.
  apply keeps_bind; [|intros _; apply keeps_emit].
  apply keeps_try_catch; [|intros e; apply keeps_emit].
  apply keeps_bind; [apply keeps_getConnection|]. intros _.
  apply keeps_bind; [apply keeps_ping|]. intros _.
  apply keeps_bind; [apply keeps_emit|]. intros _.
  apply keeps_bind; [apply keeps_getConnection|]. intros _.
  apply keeps_finally; [|apply keeps_emit].
  apply keeps_bind; [apply keeps_query|]. intros dbNames.
  apply keeps_bind; [|intros _ st Hst; exact Hst].
  apply (keeps_forM_Forall _ (fun d => In d (filteredDbNamesOf DB_NAME dbNames))).
  { apply List.Forall_forall. auto. }
  intros d Hd.
  apply keeps_bind; [apply keeps_query|]. intros tables.
  apply keeps_forM. intros t.
  apply keeps_try_catch; [|intros e; apply keeps_emit].
  apply keeps_bind; [apply keeps_query|]. intros desc st Hst.
  destruct (recordCandidate_pushes d t (lowerFields desc) st)
    as [->|(c & -> & Hdb & _ & _ & Hex & Hw)]; [exact Hst|].
  cbn [post inspectionSummary candidates].
  apply Forall_app. split; [exact Hst|]. constructor; [|constructor].
  apply (HI dbNames); auto. now rewrite Hdb.
Qed.

Lemma filtered_not_system (dbNames : list string) (d : string) :
  In d (filteredDbNamesOf DB_NAME dbNames) -> includes SYSTEM_SCHEMAS d = false.
Proof.
  unfold filteredDbNamesOf. intros Hd. apply filter_In in Hd as [_ Hd].
  now apply negb_true_iff in Hd.
Qed.

Lemma filtered_scoped (dbNames : list string) (d : string) :
  DB_NAME <> "" -> In d (filteredDbNamesOf DB_NAME dbNames) -> d = DB_NAME.
Proof.
  unfold filteredDbNamesOf. intros Hn Hd. apply filter_In in Hd as [Hd _].
  destruct (String.eqb_spec DB_NAME "") as [E|_]; [contradiction|].
  destruct Hd as [<-|[]]. reflexivity.
Qed.

Lemma boot_sound (w0 : W) : all_sound (inspectionSummary (post (boot DB_NAME w0))).
Proof.
  apply (startup_keeps_if candidate_sound); [|constructor].
  intros dbNames c Hdb _ Hw. split; [|exact Hw].
  now apply (filtered_not_system dbNames).
Qed.

(** X9.  Every candidate present when the server listens records the
    first word-vocabulary name among its columns as its word column, and
    as its definition and example columns exactly the vocabulary names
    among its columns, in vocabulary order, with at least one of them. *)
Theorem candidates_exact (w0 : W) :
  Forall candidate_exact
    (candidates (inspectionSummary (post (boot DB_NAME w0)))).
Proof.
  apply (startup_keeps_if candidate_exact); [|constructor]. auto.
Qed.

Lemma connectAndInspect_events (Q : Event -> Prop) :
  (forall r, Q (EvAcquire r)) -> (forall r, Q (EvPing r)) -> Q EvRelease ->
  (forall m, Q (EvWarn m)) ->
  (forall q r, Q (EvQuery q r)) ->
  emits Q (connectAndInspect DB_NAME).
Proof.
  intros Ha Hp Hr Hw Hq.
  apply emits_bind; [now apply emits_getConnection|]. intros _.
  apply emits_bind; [now apply emits_ping|]. intros _.
  apply emits_bind; [now apply emits_emit|]. intros _.
  apply inspectSchema_events; auto.
Qed.

(** X1.  Start-up never throws and always ends by listening, once; an
    error is logged exactly when connecting or inspecting threw. *)
Theorem startup_always_listens (w0 : W) :
  res (boot DB_NAME w0) = inr tt
  /\ last (evs (boot DB_NAME w0)) = Some EvListen
  /\ existsb is_error_log (evs (boot DB_NAME w0))
     = is_inl (res (connectAndInspect DB_NAME (initialState w0))).
Proof.
  unfold boot. rewrite startup_run. cbn [res post evs].
  assert (Hq : existsb is_error_log
                 (evs (connectAndInspect DB_NAME (initialState w0))) = false).
  { apply existsb_quiet. now apply connectAndInspect_events. }
  split; [reflexivity|].
  rewrite existsb_app, Hq.
  destruct (res (connectAndInspect DB_NAME (initialState w0))) as [e|u].
  - split; [|reflexivity].
    match goal with
    | |- last (?l ++ [?a; ?b]) = _ =>
        replace (l ++ [a; b]) with ((l ++ [a]) ++ [b])
          by (now rewrite <- app_assoc)
    end.
    apply last_snoc.
  - split; [apply last_snoc | reflexivity].
Qed.

Lemma inspectSchema_balanced (st : State W) :
  acquired (evs (inspectSchema DB_NAME st))
  = released (evs (inspectSchema DB_NAME st))
  /\ existsb is_ping_failed (evs (inspectSchema DB_NAME st)) = false.
Proof.
  rewrite inspectSchema_run.
  destruct (pool_getConnection (world st)) as [[e|u] w1]; cbn [evs];
    [split; reflexivity|].
  destruct (conn_query ShowDatabases w1) as [[e|dbNames] w2]; cbn [evs];
    [split; reflexivity|].
  set (walk := evs _).
  assert (Hwalk : Forall (fun e => is_acquired e = false /\ is_release e = false
                                   /\ is_ping_failed e = false) walk).
  { unfold walk. apply inspectDatabases_events; intros; auto. }
  change (EvAcquire (inr u) :: EvQuery ShowDatabases (inr dbNames)
          :: walk ++ [EvRelease])
    with ([EvAcquire (inr u); EvQuery ShowDatabases (inr dbNames)]
          ++ walk ++ [EvRelease]).
  rewrite !acquired_app, !released_app, !existsb_app.
  unfold acquired, released.
  rewrite (filter_quiet is_acquired walk), (filter_quiet is_release walk),
    (proj2 (existsb_quiet_list is_ping_failed walk));
    try (eapply Forall_impl; [exact Hwalk|]; cbn; tauto).
  split; reflexivity.
Qed.


Lemma connectAndInspect_accounting (st : State W) :
  acquired (evs (connectAndInspect DB_NAME st))
  = released (evs (connectAndInspect DB_NAME st))
    + (if existsb is_ping_failed (evs (connectAndInspect DB_NAME st))
       then 1 else 0).
Proof.
  unfold connectAndInspect, bind, getConnection, ping, release, emit.
  destruct (pool_getConnection (world st)) as [[e|u] w1];
    cbn [res post evs world inspectionSummary]; [reflexivity|].
  destruct (conn_ping w1) as [[e|u'] w2];
    cbn [res post evs world inspectionSummary]; [reflexivity|].
  set (st2 := mkState w2 (inspectionSummary st)).
  destruct (inspectSchema_balanced st2) as [Hb Hp].
  rewrite !acquired_app, !released_app, !existsb_app, Hb, Hp.
  cbn. lia.
Qed.

(** X2.  Start-up gives back every connection it takes from the pool,
    except the first one when its ping fails: that connection is never
    released. *)
Theorem startup_connection_accounting (w0 : W) :
  acquired (evs (boot DB_NAME w0))
  = released (evs (boot DB_NAME w0))
    + (if existsb is_ping_failed (evs (boot DB_NAME w0)) then 1 else 0).
Proof.
  unfold boot. rewrite startup_run. cbn [evs].
  rewrite acquired_app, released_app, existsb_app.
  rewrite (connectAndInspect_accounting (initialState w0)).
  destruct (res (connectAndInspect DB_NAME (initialState w0)));
    cbn; rewrite orb_false_r; lia.
Qed.

(** X16.  With a DB_NAME configured, start-up lists and describes the
    tables of that database only: every statement that names a database
    names DB_NAME. *)
Theorem inspection_scoped_to_DB_NAME (w0 : W) :
  String.eqb DB_NAME "" = false ->
  forallb (scoped_to DB_NAME) (evs (boot DB_NAME w0)) = true.
Proof.
  intros Hn. apply String.eqb_neq in Hn. apply forallb_forall. apply List.Forall_forall.
  apply (startup_events (fun e => scoped_to DB_NAME e = true)); try reflexivity.
  - intros dbNames d r Hd. rewrite (filtered_scoped dbNames d Hn Hd).
    cbn. apply String.eqb_refl.
  - intros dbNames d t r Hd. rewrite (filtered_scoped dbNames d Hn Hd).
    cbn. apply String.eqb_refl.
Qed.

Lemma walk_keeps (I : InspectionSummary -> Prop) (dbNames : list string) :
  (forall d t cs, In d (filteredDbNamesOf DB_NAME dbNames) ->
                  keeps (W:=W) I (recordCandidate d t cs)) ->
  keeps I (forM_ (filteredDbNamesOf DB_NAME dbNames) inspectDatabase).
Proof.
  intros Hrec.
  apply (keeps_forM_Forall _ (fun d => In d (filteredDbNamesOf DB_NAME dbNames))).
  { apply List.Forall_forall. auto. }
  intros d Hd.
  apply keeps_bind; [apply keeps_query|]. intros tables.
  apply keeps_forM. intros t.
  apply keeps_try_catch; [|intros e; apply keeps_emit].
  apply keeps_bind; [apply keeps_query|]. intros desc. now apply Hrec.
Qed.

Lemma inspectDatabases_summary (dbNames : list string) (st : State W) :
  let listed := filteredDbNamesOf DB_NAME dbNames in
  let o := inspectDatabases DB_NAME dbNames st in
  Forall (fun c => In (db c) listed) (candidates (inspectionSummary st)) ->
  Forall (fun c => In (db c) listed) (candidates (inspectionSummary (post o)))
  /\ (is_inl (res o) = true ->
      databases (inspectionSummary (post o)) = databases (inspectionSummary st))
  /\ (is_inl (res o) = false ->
      databases (inspectionSummary (post o)) = listed).
Proof.
  intros listed o Hst. subst o. unfold inspectDatabases. fold listed.
  set (loop := forM_ listed inspectDatabase).
  assert (Hc : Forall (fun c => In (db c) listed)
                 (candidates (inspectionSummary (post (loop st))))).
  { revert Hst. apply (walk_keeps (fun s => Forall (fun c => In (db c) listed)
                                              (candidates s))).
    intros d t cs Hd st' Hst'.
    destruct (recordCandidate_pushes d t cs st')
      as [->|(c & -> & Hdb & _)]; [exact Hst'|].
    cbn [post inspectionSummary candidates].
    apply Forall_app. split; [exact Hst'|]. constructor; [|constructor].
    now rewrite Hdb. }
  assert (Hd : databases (inspectionSummary (post (loop st)))
               = databases (inspectionSummary st)).
  { apply (walk_keeps (fun s => databases s = databases (inspectionSummary st)));
      [|reflexivity].
    intros d t cs _ st' Hst'.
    destruct (recordCandidate_pushes d t cs st') as [->|(c & -> & _)];
      exact Hst'. }
  unfold bind, modify_summary.
  destruct (res (loop st)) as [e|u]; cbn [res post inspectionSummary
                                          databases candidates is_inl].
  - split; [exact Hc|]. split; [auto|discriminate].
  - split; [exact Hc|]. split; [discriminate|auto].
Qed.

Lemma inspectSchema_summary (st : State W) :
  let o := inspectSchema DB_NAME st in
  candidates (inspectionSummary st) = [] ->
  (is_inl (res o) = true ->
   databases (inspectionSummary (post o)) = databases (inspectionSummary st))
  /\ (is_inl (res o) = false ->
      exists dbNames,
        databases (inspectionSummary (post o)) = filteredDbNamesOf DB_NAME dbNames
        /\ Forall (fun c => In (db c) (filteredDbNamesOf DB_NAME dbNames))
                  (candidates (inspectionSummary (post o)))).
Proof.
  intros o Hc. subst o. rewrite inspectSchema_run.
  destruct (pool_getConnection (world st)) as [[e|u] w1];
    cbn [res post is_inl inspectionSummary]; [split; [auto|discriminate]|].
  destruct (conn_query ShowDatabases w1) as [[e|dbNames] w2];
    cbn [res post is_inl inspectionSummary]; [split; [auto|discriminate]|].
  destruct (inspectDatabases_summary dbNames (mkState w2 (inspectionSummary st)))
    as (Hin & Hfail & Hok).
  { cbn [inspectionSummary]. rewrite Hc. constructor. }
  split; [exact Hfail|]. intros Hr. exists dbNames. auto.
Qed.

End StartupFacts.

(* ================================================================== *)
(** ** The search handler, in general *)

Section Fallback.
Context {W : Type} `{Driver W}.

(** Events of the fallback phase for the word [w]: it lists the databases,
    and for those that are not system schemas lists and describes the
    tables and selects, at most 25 rows, on a word-vocabulary column. *)
Lemma fallback_events (Q : Event -> Prop) (w : string)
    (acc : list SearchResult) :
  (forall r, Q (EvQuery ShowDatabases r)) ->
  (forall d r, includes SYSTEM_SCHEMAS d = false ->
               Q (EvQuery (ShowTablesFrom d) r)) ->
  (forall d t r, includes SYSTEM_SCHEMAS d = false ->
                 Q (EvQuery (Describe d t) r)) ->
  (forall d t col r, includes SYSTEM_SCHEMAS d = false -> In col WORD_COLUMNS ->
                     Q (EvQuery (SelectWhereLower d t col w 25) r)) ->
  emits Q (fallbackPhase w acc).
Proof.
  intros Q_databases Q_tables Q_describe Q_select.
  apply emits_bind; [now apply emits_query|]. intros dbs. cbn zeta.
  apply (emits_foldM_Forall Q (fun d => includes SYSTEM_SCHEMAS d = false)).
  { apply not_system_filter. }
  intros acc' d Hd.
  apply emits_bind; [apply emits_query; auto|]. intros tables.
  apply emits_foldM. intros acc'' t.
  apply emits_try_catch; [|intros e; apply emits_ret].
  apply emits_bind; [apply emits_query; auto|]. intros desc. cbn zeta.
  destruct (find _ WORD_COLUMNS) as [col|] eqn:Hf; cbn [falsy key_of];
    [|apply emits_ret].
  destruct (String.eqb col ""); [apply emits_ret|].
  apply emits_bind; [|intros rows; apply emits_ret].
  apply emits_query. intros r. apply Q_select; auto.
  apply find_some in Hf. tauto.
Qed.

End Fallback.

Section HandlerTrace.
Context {W : Type} `{Driver W}.

(** A property of events that holds of everything a request for [w] can
    do once the candidates are sound. *)
Variable Q : Event -> Prop.
Variable w : string.
Hypothesis Q_acquire : forall r, Q (EvAcquire r).
Hypothesis Q_release : Q EvRelease.
Hypothesis Q_warn : forall m, Q (EvWarn m).
Hypothesis Q_error : forall m, Q (EvError m).
Hypothesis Q_databases : forall r, Q (EvQuery ShowDatabases r).
Hypothesis Q_tables :
  forall d r, includes SYSTEM_SCHEMAS d = false -> Q (EvQuery (ShowTablesFrom d) r).
Hypothesis Q_describe :
  forall d t r, includes SYSTEM_SCHEMAS d = false -> Q (EvQuery (Describe d t) r).
Hypothesis Q_select :
  forall d t col limit r,
    includes SYSTEM_SCHEMAS d = false -> In col WORD_COLUMNS ->
    limit = 50 \/ limit = 25 ->
    Q (EvQuery (SelectWhereLower d t col w limit) r).

Lemma fallbackPhase_events (acc : list SearchResult) :
  emits Q (fallbackPhase w acc).
Proof. apply fallback_events; auto. Qed.

Lemma candidatePhase_events (st : State W) :
  all_sound (inspectionSummary st) -> Forall Q (evs (candidatePhase w st)).
Proof.
  intros Hs. unfold candidatePhase, bind, gets. cbn [res post evs app].
  apply (emits_foldM_Forall Q candidate_sound); [exact Hs|].
  intros acc c [Hdb (col & Hcol & Hin)].
  apply emits_try_catch.
  - apply emits_bind; [|intros rows; apply emits_ret].
    apply emits_query. intros r. rewrite Hcol. cbn [key_of]. auto.
  - intros e. apply emits_bind; [now apply emits_emit|].
    intros _. apply emits_ret.
Qed.

Lemma searchBody_events (st : State W) :
  all_sound (inspectionSummary st) -> Forall Q (evs (searchBody w st)).
Proof.
  intros Hs. destruct (candidatePhase_run w st) as (Hr & _).
  pose proof (candidatePhase_events st Hs) as Hc.
  destruct (map _ _) as [|r rs] eqn:E.
  - destruct (searchBody_miss w st Hr) as [_ ->].
    apply Forall_app. split; [exact Hc|]. apply Forall_app. split.
    + apply fallbackPhase_events.
    + destruct (res (fallbackPhase w [] _)); auto.
  - destruct (searchBody_hit w st (r :: rs) Hr) as [_ ->]; [discriminate|].
    exact Hc.
Qed.

Lemma searchHandler_events (req : Request) (st : State W) :
  wordOf req = w ->
  all_sound (inspectionSummary st) -> Forall Q (evs (searchHandler req st)).
Proof.
  intros Hw Hs.
  destruct (String.eqb_spec (wordOf req) "") as [E|Hne].
  { unfold searchHandler. rewrite E. constructor. }
  destruct (pool_getConnection (world st)) as [[e|[]] w1] eqn:Hp.
  - destruct (searchHandler_refused req st e w1 Hne Hp) as [_ ->]. auto.
  - destruct (searchHandler_run req st w1 Hne Hp) as [_ ->]. rewrite Hw.
    constructor; [auto|]. apply Forall_app. split; [|auto].
    now apply searchBody_events.
Qed.

End HandlerTrace.

Section HandlerFacts.
Context {W : Type} `{Driver W}.

Lemma searchBody_keeps I (w : string) : keeps I (searchBody w).
Proof.
  apply keeps_try_catch.
  - apply keeps_bind.
    + apply keeps_bind; [apply keeps_gets|]. intros cands.
      apply keeps_foldM. intros acc c.
      apply keeps_try_catch.
      * apply keeps_bind; [apply keeps_query|]. intros rows. apply keeps_ret.
      * intros e. apply keeps_bind; [apply keeps_emit|]. intros _.
        apply keeps_ret.
    + intros results. apply keeps_bind; [|intros rs; apply keeps_ret].
      destruct (Nat.eqb _ _); [|apply keeps_ret].
      apply keeps_bind; [apply keeps_query|]. intros dbs. cbn zeta.
      apply keeps_foldM. intros acc d.
      apply keeps_bind; [apply keeps_query|]. intros tables.
      apply keeps_foldM. intros acc' t.
      apply keeps_try_catch; [|intros e; apply keeps_ret].
      apply keeps_bind; [apply keeps_query|]. intros desc. cbn zeta.
      destruct (falsy _); [apply keeps_ret|].
      apply keeps_bind; [apply keeps_query|]. intros rows. apply keeps_ret.
  - intros e. apply keeps_bind; [apply keeps_emit|]. intros _. apply keeps_ret.
Qed.

Lemma searchHandler_keeps I (req : Request) : keeps I (searchHandler req).
Proof.
  unfold searchHandler. destruct (String.eqb _ _); [apply keeps_ret|].
  apply keeps_bind; [apply keeps_getConnection|]. intros _.
  apply keeps_finally; [apply searchBody_keeps | apply keeps_emit].
Qed.

(** X4.  A request never writes the inspection summary: whatever happens
    to it, the summary after the handler is the summary before. *)
Theorem search_leaves_summary (req : Request) (st : State W) :
  inspectionSummary (post (searchHandler req st)) = inspectionSummary st.
Proof.
  now apply (searchHandler_keeps (fun s => s = inspectionSummary st) req st).
Qed.

Lemma serve_summary (reqs : list Request) :
  forall st : State W,
    inspectionSummary (serve reqs st).2 = inspectionSummary st.
Proof.
  induction reqs as [|req reqs IH]; intros st; cbn [serve]; [reflexivity|].
  specialize (IH (post (searchHandler req st))).
  destruct (serve reqs (post (searchHandler req st))) as [trace st'].
  cbn [snd] in *. rewrite IH.
  now apply (searchHandler_keeps (fun s => s = inspectionSummary st) req st).
Qed.

Lemma serving_sound (DB_NAME : string) (w0 : W) (reqs : list Request) :
  all_sound (inspectionSummary (serving DB_NAME w0 reqs)).
Proof. unfold serving. rewrite serve_summary. apply boot_sound. Qed.

Lemma not_system_event (d : string) (q : Query) (r : Exn + ReplyOf q) :
  query_db q = Some d -> includes SYSTEM_SCHEMAS d = false ->
  touches_system (EvQuery q r) = false.
Proof. intros Hq Hd. cbn. now rewrite Hq. Qed.

Lemma serve_no_system (reqs : list Request) :
  forall st : State W,
    all_sound (inspectionSummary st) ->
    Forall (fun e => touches_system e = false) (serve reqs st).1.
Proof.
  induction reqs as [|req reqs IH]; intros st Hs; cbn [serve]; [constructor|].
  specialize (IH (post (searchHandler req st))).
  destruct (serve reqs (post (searchHandler req st))) as [trace st'].
  cbn [fst] in *. apply Forall_app. split.
  - apply (searchHandler_events _ (wordOf req)); auto; intros;
      now apply (not_system_event d).
  - apply IH.
    now apply (searchHandler_keeps all_sound req st).
Qed.

(** X7.  From start-up on and through any sequence of requests, the server
    never sends a statement that names a system schema: no SHOW TABLES, no
    DESCRIBE and no SELECT on information_schema, mysql,
    performance_schema or sys. *)
Theorem system_schemas_never_touched
    (DB_NAME : string) (w0 : W) (reqs : list Request) :
  existsb touches_system (session DB_NAME w0 reqs) = false.
Proof.
  apply existsb_quiet_list. unfold session. apply Forall_app. split.
  - apply (startup_events (fun e => touches_system e = false));
      try reflexivity; intros; apply (not_system_event d); auto;
      now apply (filtered_not_system DB_NAME dbNames).
  - apply serve_no_system. apply boot_sound.
Qed.

(** X8.  Whatever was served before, every SELECT a request sends compares
    a column of the word vocabulary with the trimmed word of the request,
    and asks for at most 50 or 25 rows. *)
Theorem selects_are_word_lookups
    (DB_NAME : string) (w0 : W) (reqs : list Request) (req : Request) :
  forallb (select_ok (wordOf req))
          (evs (searchHandler req (serving DB_NAME w0 reqs))) = true.
Proof.
  apply forallb_forall. apply List.Forall_forall.
  apply (searchHandler_events (fun e => select_ok (wordOf req) e = true)
           (wordOf req)); try reflexivity; auto.
  - intros d t col limit r _ Hcol Hlim. unfold select_ok.
    apply includes_In in Hcol. rewrite Hcol, String.eqb_refl.
    destruct Hlim as [-> | ->]; reflexivity.
  - apply serving_sound.
Qed.

End HandlerFacts.

Lemma rows_returned_app (a b : list Event) :
  rows_returned (a ++ b) = rows_returned a + rows_returned b.
Proof.
  unfold rows_returned, select_replies.
  now rewrite omap_app, concat_app, length_app.
Qed.

Lemma returned_rows_length (cands : list Candidate) :
  forall replies : list (list Row),
    length replies = length cands ->
    length (returned_rows cands replies) = length (concat replies).
Proof.
  unfold returned_rows.
  induction cands as [|c cands IH]; intros [|rows replies] Hl;
    try discriminate; [reflexivity|].
  cbn [zip_with concat]. rewrite !length_app, length_map.
  f_equal. apply IH. now injection Hl.
Qed.

Section Outcomes.
Context {W : Type} `{Driver W}.

Lemma searchBody_quiet (Q : Event -> Prop) (w : string) :
  (forall q r, Q (EvQuery q r)) -> (forall m, Q (EvWarn m)) ->
  (forall m, Q (EvError m)) ->
  emits Q (searchBody w).
Proof.
  intros Hq Hw He.
  apply emits_try_catch.
  - apply emits_bind.
    + apply emits_bind; [apply emits_gets|]. intros cands.
      apply emits_foldM. intros acc c.
      apply emits_try_catch.
      * apply emits_bind; [now apply emits_query|]. intros rows. apply emits_ret.
      * intros e. apply emits_bind; [now apply emits_emit|]. intros _.
        apply emits_ret.
    + intros results. apply emits_bind; [|intros rs; apply emits_ret].
      destruct (Nat.eqb _ _); [|apply emits_ret].
      apply emits_bind; [now apply emits_query|]. intros dbs. cbn zeta.
      apply emits_foldM. intros acc d.
      apply emits_bind; [now apply emits_query|]. intros tables.
      apply emits_foldM. intros acc' t.
      apply emits_try_catch; [|intros e; apply emits_ret].
      apply emits_bind; [now apply emits_query|]. intros desc. cbn zeta.
      destruct (falsy _); [apply emits_ret|].
      apply emits_bind; [now apply emits_query|]. intros rows. apply emits_ret.
  - intros e. apply emits_bind; [now apply emits_emit|]. intros _.
    apply emits_ret.
Qed.

(** X3.  A request gives back the connection it takes: its trace has as
    many releases as acquisitions, at most one, and when a connection was
    taken the release is the last thing the handler does, whatever failed
    in between. *)
Theorem search_releases_its_connection (req : Request) (st : State W) :
  released (evs (searchHandler req st)) = acquired (evs (searchHandler req st))
  /\ acquired (evs (searchHandler req st)) <= 1
  /\ (acquired (evs (searchHandler req st)) = 1 ->
      last (evs (searchHandler req st)) = Some EvRelease).
Proof.
  destruct (String.eqb_spec (wordOf req) "") as [E|Hne].
  { unfold searchHandler. rewrite E. cbn. repeat split; [lia|discriminate]. }
  destruct (pool_getConnection (world st)) as [[e|[]] w1] eqn:Hp.
  { destruct (searchHandler_refused req st e w1 Hne Hp) as [_ ->]. cbn.
    repeat split; [lia|discriminate]. }
  destruct (searchHandler_run req st w1 Hne Hp) as [_ ->].
  set (body := evs _).
  assert (Hb : Forall (fun e => is_acquired e = false /\ is_release e = false) body).
  { unfold body. apply searchBody_quiet; auto. }
  change (EvAcquire (inr ()) :: body ++ [EvRelease])
    with ([EvAcquire (inr ())] ++ body ++ [EvRelease]).
  rewrite !acquired_app, !released_app. unfold acquired, released.
  rewrite (filter_quiet is_acquired body), (filter_quiet is_release body);
    try (eapply Forall_impl; [exact Hb|]; cbn; tauto).
  cbn. repeat split; [lia|]. intros _.
  rewrite app_comm_cons. apply last_snoc.
Qed.

(** X5.  When the pool refuses the connection of a request with a word,
    the handler sends no response: its promise rejects with the error of
    the pool, no statement is sent and nothing is released. *)
Theorem refused_connection_rejects
    (req : Request) (st : State W) (e : Exn) (w1 : W) :
  String.eqb (wordOf req) "" = false ->
  pool_getConnection (world st) = (inl e, w1) ->
  searchHandler req st
  = mkOut (inl e) (mkState w1 (inspectionSummary st)) [EvAcquire (inl e)].
Proof.
  intros Hw Hp. unfold searchHandler. rewrite Hw.
  unfold bind, getConnection. now rewrite Hp.
Qed.

Lemma foldM_counts {A} (body : list SearchResult -> A -> M W (list SearchResult))
    (xs : list A) :
  (forall acc x st rs,
      res (body acc x st) = inr rs ->
      length rs = length acc + rows_returned (evs (body acc x st))) ->
  forall acc st rs,
    res (foldM body xs acc st) = inr rs ->
    length rs = length acc + rows_returned (evs (foldM body xs acc st)).
Proof.
  intros Hb. induction xs as [|x xs IH]; intros acc st rs; cbn [foldM].
  - intros [= <-]. cbn. lia.
  - unfold bind. destruct (res (body acc x st)) as [e|rs1] eqn:E1;
      cbn [res post evs]; [discriminate|].
    intros Hr. rewrite rows_returned_app.
    rewrite (IH _ _ _ Hr), (Hb _ _ _ _ E1). lia.
Qed.

Lemma fallbackTable_counts (w d : string) (acc : list SearchResult)
    (t : string) (st : State W) (rs : list SearchResult) :
  res (fallbackTable w d acc t st) = inr rs ->
  length rs = length acc + rows_returned (evs (fallbackTable w d acc t st)).
Proof.
  unfold fallbackTable, try_catch, bind, query, ret.
  set (qd := Describe d t).
  generalize (conn_query qd (world st)). intros [[e|desc] w1];
    cbn [res post evs app world inspectionSummary].
  { intros [= <-]. cbn. lia. }
  destruct (falsy _); cbn [res post evs app world inspectionSummary].
  { intros [= <-]. cbn. lia. }
  set (qs := SelectWhereLower _ _ _ _ _).
  generalize (conn_query qs w1). intros [[e|rows] w2];
    cbn [res post evs app world inspectionSummary].
  - intros [= <-]. cbn. lia.
  - intros [= <-]. rewrite length_app, length_map.
    unfold rows_returned, select_replies. cbn.
    rewrite app_nil_r. reflexivity.
Qed.

Lemma query_then {A} (q : Query) (k : ReplyOf q -> M W A) (st : State W) :
  bind (query q) k st
  = match conn_query q (world st) with
    | (inl e, w1) =>
        mkOut (inl e) (mkState w1 (inspectionSummary st)) [EvQuery q (inl e)]
    | (inr r, w1) =>
        let o := k r (mkState w1 (inspectionSummary st)) in
        mkOut (res o) (post o) (EvQuery q (inr r) :: evs o)
    end.
Proof.
  unfold bind, query. now destruct (conn_query q (world st)) as [[e|r] w1].
Qed.

Lemma rows_returned_skip (e : Event) (l : list Event) :
  selected e = None -> rows_returned (e :: l) = rows_returned l.
Proof.
  intros He. unfold rows_returned, select_replies. cbn. now rewrite He.
Qed.

Lemma fallbackPhase_counts (w : string) (acc : list SearchResult)
    (st : State W) (rs : list SearchResult) :
  res (fallbackPhase w acc st) = inr rs ->
  length rs = length acc + rows_returned (evs (fallbackPhase w acc st)).
Proof.
  unfold fallbackPhase. rewrite query_then.
  destruct (conn_query ShowDatabases (world st)) as [[e|dbs] w1];
    cbn [res post evs]; [discriminate|].
  rewrite rows_returned_skip by reflexivity. apply foldM_counts.
  intros acc' d st' rs'. unfold fallbackDatabase. rewrite query_then.
  destruct (conn_query (ShowTablesFrom d) (world st')) as [[e|tables] w2];
    cbn [res post evs]; [discriminate|].
  rewrite rows_returned_skip by reflexivity. apply foldM_counts.
  intros. now apply fallbackTable_counts.
Qed.

Lemma candidatePhase_counts (w : string) (st : State W) :
  exists rs,
    res (candidatePhase w st) = inr rs
    /\ length rs = rows_returned (evs (candidatePhase w st)).
Proof.
  destruct (candidatePhase_run w st) as (Hr & Hl & _).
  eexists. split; [exact Hr|].
  rewrite length_map. now apply returned_rows_length.
Qed.

(** X6.  In a 200 answer the count is the number of results, is positive,
    and is the number of rows the SELECTs of the request returned; a 404
    answer means the SELECTs of the request returned no row at all.  Both
    echo the trimmed word. *)
Theorem answer_counts_the_rows (req : Request) (st : State W) (r : Response) :
  res (searchHandler req st) = inr r ->
  (status r = 200%Z ->
   exists rs,
     body r = BodyFound (wordOf req) (length rs) rs
     /\ length rs = rows_returned (evs (searchHandler req st))
     /\ 0 < length rs)
  /\ (status r = 404%Z ->
      body r = BodyNotFound (wordOf req) "Not found"
      /\ rows_returned (evs (searchHandler req st)) = 0).
Proof.
  destruct (String.eqb_spec (wordOf req) "") as [E|Hne].
  { unfold searchHandler. rewrite E. cbn. intros [= <-].
    split; discriminate. }
  destruct (pool_getConnection (world st)) as [[e|[]] w1] eqn:Hp.
  { destruct (searchHandler_refused req st e w1 Hne Hp) as [-> _].
    discriminate. }
  destruct (searchHandler_run req st w1 Hne Hp) as [-> ->].
  set (st1 := mkState w1 (inspectionSummary st)).
  change (EvAcquire (inr ()) :: evs (searchBody (wordOf req) st1) ++ [EvRelease])
    with ([EvAcquire (inr ())] ++ evs (searchBody (wordOf req) st1)
          ++ [EvRelease]).
  rewrite !rows_returned_app.
  change (rows_returned [EvAcquire (inr ())]) with 0.
  change (rows_returned [EvRelease]) with 0.
  rewrite Nat.add_0_l, Nat.add_0_r.
  destruct (candidatePhase_counts (wordOf req) st1) as (rs & Hr & Hl).
  destruct rs as [|r0 rs].
  - destruct (searchBody_miss (wordOf req) st1 Hr) as [-> ->].
    rewrite !rows_returned_app, <- Hl. cbn [length Nat.add].
    destruct (res (fallbackPhase _ _ _)) as [e|rs2] eqn:Hf.
    + intros [= <-]. split; discriminate.
    + apply fallbackPhase_counts in Hf. cbn [length Nat.add] in Hf.
      change (rows_returned []) with 0. rewrite Nat.add_0_r, <- Hf.
      intros [= <-]. unfold respond.
      destruct rs2 as [|r2 rs2]; cbn; split; try discriminate.
      * auto.
      * intros _. exists (r2 :: rs2). cbn. repeat split; lia.
  - destruct (searchBody_hit (wordOf req) st1 (r0 :: rs) Hr) as [-> ->];
      [discriminate|].
    rewrite <- Hl. intros [= <-]. cbn. split; [|discriminate].
    intros _. exists (r0 :: rs). cbn. repeat split; lia.
Qed.

End Outcomes.

Section Logging.
Context {W : Type} `{Driver W}.

Lemma searchCandidate_warns (w : string) (acc : list SearchResult)
    (c : Candidate) (st : State W) :
  length (List.filter is_warn (evs (searchCandidate w acc c st)))
  = length (List.filter is_failed_candidate_select
              (evs (searchCandidate w acc c st))).
Proof.
  unfold searchCandidate, try_catch. rewrite query_then.
  destruct (conn_query _ (world st)) as [[e|rows] w1];
    cbn [res post evs ret bind emit]; reflexivity.
Qed.

Lemma candidates_warn (w : string) (cands : list Candidate) :
  forall (acc : list SearchResult) (st : State W),
    length (List.filter is_warn (evs (foldM (searchCandidate w) cands acc st)))
    = length (List.filter is_failed_candidate_select
                (evs (foldM (searchCandidate w) cands acc st))).
Proof.
  induction cands as [|c cands IH]; intros acc st; cbn [foldM]; [reflexivity|].
  unfold bind. destruct (searchCandidate_run w acc c st) as (-> & _).
  cbn [res post evs]. rewrite !List.filter_app, !length_app.
  now rewrite searchCandidate_warns, IH.
Qed.

Lemma fallbackPhase_silent (w : string) (acc : list SearchResult) :
  emits (fun e => is_warn e = false /\ is_failed_candidate_select e = false)
        (fallbackPhase w acc).
Proof.
  apply fallback_events.
  - intros r. split; [reflexivity | now destruct r].
  - intros d r _. split; [reflexivity | now destruct r].
  - intros d t r _. split; [reflexivity | now destruct r].
  - intros d t col r _ _. split; [reflexivity | now destruct r].
Qed.

(** X14.  A request logs one warning for each SELECT of the candidate
    phase that fails, and none for what fails in the fallback phase. *)
Theorem warnings_are_candidate_failures (req : Request) (st : State W) :
  length (List.filter is_warn (evs (searchHandler req st)))
  = length (List.filter is_failed_candidate_select (evs (searchHandler req st)))
  /\ forall acc st', existsb is_warn (evs (fallbackPhase (wordOf req) acc st'))
                     = false.
Proof.
  split.
  2: { intros acc st'. apply existsb_quiet.
       eapply emits_weaken; [|apply fallbackPhase_silent]. cbn. tauto. }
  destruct (String.eqb_spec (wordOf req) "") as [E|Hne].
  { unfold searchHandler. rewrite E. reflexivity. }
  destruct (pool_getConnection (world st)) as [[e|[]] w1] eqn:Hp.
  { destruct (searchHandler_refused req st e w1 Hne Hp) as [_ ->].
    reflexivity. }
  destruct (searchHandler_run req st w1 Hne Hp) as [_ ->].
  set (st1 := mkState w1 (inspectionSummary st)).
  cbn [List.filter is_warn is_failed_candidate_select].
  rewrite !List.filter_app, !length_app. cbn [List.filter is_warn
    is_failed_candidate_select length]. f_equal.
  assert (Hc : length (List.filter is_warn (evs (candidatePhase (wordOf req) st1)))
               = length (List.filter is_failed_candidate_select
                           (evs (candidatePhase (wordOf req) st1)))).
  { unfold candidatePhase, bind, gets. cbn [res post evs app].
    apply candidates_warn. }
  destruct (candidatePhase_run (wordOf req) st1) as (Hr & _).
  destruct (map _ _) as [|r rs] eqn:E.
  - destruct (searchBody_miss (wordOf req) st1 Hr) as [_ ->].
    rewrite !List.filter_app, !length_app, Hc. f_equal.
    set (fb := fallbackPhase _ _ _).
    pose proof (fallbackPhase_silent (wordOf req) []
                  (post (candidatePhase (wordOf req) st1))) as Hs.
    fold fb in Hs.
    rewrite (filter_quiet is_warn (evs fb)),
      (filter_quiet is_failed_candidate_select (evs fb));
      try (eapply Forall_impl; [exact Hs|]; cbn; tauto).
    now destruct (res fb).
  - destruct (searchBody_hit (wordOf req) st1 (r :: rs) Hr) as [_ ->];
      [discriminate|].
    exact Hc.
Qed.

End Logging.

(* ================================================================== *)
(** ** Table names, and the liveness probe *)

Lemma prefix_refl (s : string) : String.prefix s s = true.
Proof.
  induction s as [|a s IH]; cbn; [reflexivity|].
  destruct (Ascii.ascii_dec a a); [exact IH | contradiction].
Qed.

Lemma tableNamesOf_nonempty (d : string) (tables : list TableRow) :
  Forall (fun n => n <> "") (tableNamesOf d tables).
Proof.
  unfold tableNamesOf. generalize (key_of (tableKeyOf d tables)). intros k.
  induction tables as [|r tables IH]; cbn; [constructor|].
  destruct (prop_get r k) as [s|]; [|exact IH].
  destruct (String.eqb_spec s "") as [_|Hs]; [exact IH|].
  now constructor.
Qed.

(** X10.  On the reply MySQL gives to SHOW TABLES FROM d, one row per table
    under the property Tables_in_d, the names read are the table names in
    the order of the reply, without the empty ones; and whatever the
    reply, no empty name is ever read. *)
Theorem table_names_of_reply (d : string) (names : list string) :
  tableNamesOf d (show_tables_reply d names)
  = List.filter (fun n => negb (String.eqb n "")) names
  /\ forall tables, Forall (fun n => n <> "") (tableNamesOf d tables).
Proof.
  split; [|apply tableNamesOf_nonempty].
  destruct names as [|n0 rest]; [reflexivity|].
  unfold tableNamesOf.
  assert (Hk : tableKeyOf d (show_tables_reply d (n0 :: rest))
               = Some ("Tables_in_" +:+ d)).
  { unfold tableKeyOf, show_tables_reply. cbn [map fst find].
    unfold startsWith. now rewrite prefix_refl. }
  rewrite Hk. cbn [key_of]. generalize (n0 :: rest). intros l.
  unfold show_tables_reply.
  induction l as [|n l IH]; [reflexivity|].
  cbn [map omap list_omap prop_get List.filter]. rewrite String.eqb_refl.
  destruct (String.eqb n ""); cbn [negb]; [exact IH|].
  f_equal. exact IH.
Qed.

Section Probe.
Context {W : Type} `{Driver W} `{Prober W}.

(** X12.  The probe always answers, 200 or 500; it answers 200 with
    [{ok: true}] exactly when both the acquisition and SELECT 1 succeed,
    and a 500 carries the message of the call that failed. *)
Theorem health_answer (w : W) :
  (h_status (healthHandler w) = 200%Z \/ h_status (healthHandler w) = 500%Z)
  /\ (h_status (healthHandler w) = 200%Z <-> h_body (healthHandler w) = HealthOk)
  /\ (h_status (healthHandler w) = 200%Z <->
      exists u w1 u' w2,
        pool_getConnection w = (inr u, w1)
        /\ conn_select_one w1 = (inr u', w2))
  /\ (forall msg,
        h_body (healthHandler w) = HealthDown msg ->
        exists e,
          msg = message e
          /\ (In (HsAcquire (inl e)) (h_steps (healthHandler w))
              \/ In (HsSelectOne (inl e)) (h_steps (healthHandler w)))).
Proof.
  unfold healthHandler.
  destruct (pool_getConnection w) as [[e|u] w1] eqn:Hp; cbn.
  - repeat split; auto; try discriminate.
    + intros (u & w1' & u' & w2 & [=] & _).
    + intros msg [= <-]. exists e. auto.
  - destruct (conn_select_one w1) as [[e|u'] w2] eqn:Hs; cbn.
    + repeat split; auto; try discriminate.
      * intros (u0 & w1' & u'0 & w2' & [= <- <-] & Hs').
        rewrite Hs in Hs'. discriminate.
      * intros msg [= <-]. exists e. auto.
    + repeat split; auto; try discriminate.
      intros _. exists u, w1, u', w2. auto.
Qed.

(** X13.  When SELECT 1 fails on the connection the probe has taken, the
    probe answers 500 with the message of that error and never gives the
    connection back. *)
Theorem health_failure_keeps_connection
    (w : W) (u : unit) (w1 : W) (e : Exn) (w2 : W) :
  pool_getConnection w = (inr u, w1) ->
  conn_select_one w1 = (inl e, w2) ->
  h_status (healthHandler w) = 500%Z
  /\ h_body (healthHandler w) = HealthDown (message e)
  /\ In (HsAcquire (inr u)) (h_steps (healthHandler w))
  /\ ~ In HsRelease (h_steps (healthHandler w)).
Proof.
  intros Hp Hs. unfold healthHandler. rewrite Hp, Hs. cbn.
  repeat split; auto. intros [Hx|[Hx|[]]]; discriminate.
Qed.

End Probe.

(* ================================================================== *)
(** ** Loops that go on after a failure *)

Lemma lower_unit_idempotent (c : ascii) : lower_unit (lower_unit c) = lower_unit c.
Proof.
  destruct c as [[] [] [] [] [] [] [] []]; vm_compute; reflexivity.
Qed.

Lemma toLowerCase_idempotent (s : string) : lower_case (toLowerCase s).
Proof.
  unfold lower_case. induction s as [|c s IH]; cbn; [reflexivity|].
  now rewrite lower_unit_idempotent, IH.
Qed.

Lemma vocabulary_lower_case :
  Forall lower_case (WORD_COLUMNS ++ DEF_COLUMNS ++ EX_COLUMNS).
Proof. repeat constructor. Qed.

Section Walks.
Context {W : Type} `{Driver W}.

Lemma searchCandidate_queries (w : string) (acc : list SearchResult)
    (c : Candidate) (st : State W) :
  queries_sent (evs (searchCandidate w acc c st)) = [candidate_select w c].
Proof.
  unfold searchCandidate, try_catch. rewrite query_then.
  fold (candidate_select w c).
  destruct (conn_query (candidate_select w c) (world st)) as [[e|rows] w1];
    reflexivity.
Qed.

(** X17.  The candidate phase sends exactly one SELECT per candidate, in
    the order of the candidates, whether or not the SELECTs before it
    failed; and it never throws. *)
Theorem every_candidate_is_queried (w : string) (st : State W) :
  queries_sent (evs (candidatePhase w st))
  = map (candidate_select w) (candidates (inspectionSummary st))
  /\ is_inl (res (candidatePhase w st)) = false.
Proof.
  split.
  2: { destruct (candidatePhase_run w st) as (-> & _). reflexivity. }
  unfold candidatePhase, bind, gets. cbn [res post evs app].
  generalize (@nil SearchResult) as acc.
  generalize (candidates (inspectionSummary st)) as cands. revert st.
  intros st cands. revert st.
  induction cands as [|c cands IH]; intros st acc; cbn [foldM map];
    [reflexivity|].
  unfold bind. destruct (searchCandidate_run w acc c st) as (-> & _).
  cbn [res post evs]. unfold queries_sent in *.
  rewrite omap_app. fold (queries_sent (evs (searchCandidate w acc c st))).
  rewrite searchCandidate_queries. cbn [app]. f_equal. apply IH.
Qed.

Lemma inspectTable_run (d t : string) (st : State W) :
  res (inspectTable d t st) = inr tt
  /\ queries_sent (evs (inspectTable d t st)) = [Describe d t].
Proof.
  unfold inspectTable, try_catch. rewrite query_then.
  destruct (conn_query (Describe d t) (world st)) as [[e|desc] w1];
    cbn [res post evs emit]; [split; reflexivity|].
  destruct (recordCandidate_pushes d t (lowerFields desc)
              (mkState w1 (inspectionSummary st)))
    as [->|(c & -> & _)]; split; reflexivity.
Qed.

Lemma inspectTables_run (d : string) (ts : list string) :
  forall st : State W,
    res (forM_ ts (inspectTable d) st) = inr tt
    /\ queries_sent (evs (forM_ ts (inspectTable d) st)) = map (Describe d) ts.
Proof.
  induction ts as [|t ts IH]; intros st; cbn [forM_ map];
    [split; reflexivity|].
  unfold bind. destruct (inspectTable_run d t st) as [-> Hq].
  destruct (IH (post (inspectTable d t st))) as [Hr Hq'].
  cbn [res post evs]. split; [exact Hr|].
  unfold queries_sent in *. now rewrite omap_app, Hq, Hq'.
Qed.

(** X18.  Once the tables of a database are listed, inspection describes
    every one of them, in the order of the listing, whether or not the
    DESCRIBEs before it failed; and the walk over the tables never
    throws. *)
Theorem every_table_is_described
    (d : string) (st : State W) (tables : list TableRow) (w1 : W) :
  conn_query (ShowTablesFrom d) (world st) = (inr tables, w1) ->
  res (inspectDatabase d st) = inr tt
  /\ queries_sent (evs (inspectDatabase d st))
     = ShowTablesFrom d :: map (Describe d) (tableNamesOf d tables).
Proof.
  intros Hq. unfold inspectDatabase. rewrite query_then, Hq. cbn [res evs].
  destruct (inspectTables_run d (tableNamesOf d tables)
              (mkState w1 (inspectionSummary st))) as [Hr Hs].
  split; [exact Hr|]. unfold queries_sent in *. cbn. now rewrite Hs.
Qed.

(** X19.  Every name recorded in a candidate present when the server
    listens is in lower case, whatever the case the table declares its
    columns in: the columns, the word column, the definition and the
    example columns. *)
Theorem candidates_lower_case (DB_NAME : string) (w0 : W) :
  Forall candidate_lower
    (candidates (inspectionSummary (post (boot DB_NAME w0)))).
Proof.
  cut (keeps (fun s => Forall candidate_lower (candidates s)) (startup DB_NAME)).
  { intros Hk. apply (Hk (initialState w0)). constructor. }
  apply keeps_bind; [|intros _; apply keeps_emit].
  apply keeps_try_catch; [|intros e; apply keeps_emit].
  apply keeps_bind; [apply keeps_getConnection|]. intros _.
  apply keeps_bind; [apply keeps_ping|]. intros _.
  apply keeps_bind; [apply keeps_emit|]. intros _.
  apply keeps_bind; [apply keeps_getConnection|]. intros _.
  apply keeps_finally; [|apply keeps_emit].
  apply keeps_bind; [apply keeps_query|]. intros dbNames.
  apply keeps_bind; [|intros _ st Hst; exact Hst].
  apply keeps_forM. intros d.
  apply keeps_bind; [apply keeps_query|]. intros tables.
  apply keeps_forM. intros t.
  apply keeps_try_catch; [|intros e; apply keeps_emit].
  apply keeps_bind; [apply keeps_query|]. intros desc st Hst.
  destruct (recordCandidate_pushes d t (lowerFields desc) st)
    as [->|(c & -> & _ & _ & Hcols & Hex & (wc & Hwc & Hin))]; [exact Hst|].
  cbn [post inspectionSummary candidates].
  apply Forall_app. split; [exact Hst|]. constructor; [|constructor].
  pose proof vocabulary_lower_case as Hv.
  rewrite !Forall_app in Hv. destruct Hv as (Hvw & Hvd & Hve).
  destruct Hex as (_ & Hd & He & _).
  split.
  - rewrite Hcols. unfold lowerFields. apply List.Forall_forall.
    intros x Hx. apply in_map_iff in Hx as (f & <- & _).
    apply toLowerCase_idempotent.
  - rewrite Hwc. cbn [key_of]. constructor.
    + rewrite List.Forall_forall in Hvw. auto.
    + apply Forall_app. split; apply List.Forall_forall; intros x Hx.
      * apply Hd in Hx as [Hx _]. rewrite List.Forall_forall in Hvd. auto.
      * apply He in Hx as [Hx _]. rewrite List.Forall_forall in Hve. auto.
Qed.

End Walks.

(* ================================================================== *)
(** ** The further theorems at work *)

Lemma refused_connection_witness :
  String.eqb (wordOf (ask "apple")) "" = false
  /\ pool_getConnection (world (initialState refusing))
     = (inl Mock.down, refusing)
  /\ searchHandler (ask "apple") (initialState refusing)
     = mkOut (inl Mock.down)
             (mkState refusing (inspectionSummary (initialState refusing)))
             [EvAcquire (inl Mock.down)].
Proof.
  split; [reflexivity|]. split; [reflexivity|].
  apply (refused_connection_rejects (ask "apple") (initialState refusing)
           Mock.down refusing); reflexivity.
Defined.

Lemma answer_counts_witness :
  res (searchHandler (ask "apple") bare_started)
  = inr (mkResponse 200 (BodyFound "apple" 1 [bare_apple]))
  /\ ((status (mkResponse 200 (BodyFound "apple" 1 [bare_apple])) = 200%Z ->
       exists rs,
         body (mkResponse 200 (BodyFound "apple" 1 [bare_apple]))
         = BodyFound (wordOf (ask "apple")) (length rs) rs
         /\ length rs
            = rows_returned (evs (searchHandler (ask "apple") bare_started))
         /\ 0 < length rs)
      /\ (status (mkResponse 200 (BodyFound "apple" 1 [bare_apple])) = 404%Z ->
          body (mkResponse 200 (BodyFound "apple" 1 [bare_apple]))
          = BodyNotFound (wordOf (ask "apple")) "Not found"
          /\ rows_returned (evs (searchHandler (ask "apple") bare_started)) = 0)).
Proof.
  split; [vm_compute; reflexivity|].
  apply (answer_counts_the_rows (ask "apple") bare_started).
  vm_compute. reflexivity.
Defined.

Lemma health_failure_witness :
  pool_getConnection Liveness.stalled = (inr tt, Liveness.stalled)
  /\ conn_select_one Liveness.stalled = (inl Mock.failed, Liveness.stalled)
  /\ h_status (healthHandler Liveness.stalled) = 500%Z
  /\ h_body (healthHandler Liveness.stalled) = HealthDown (message Mock.failed)
  /\ In (HsAcquire (inr tt)) (h_steps (healthHandler Liveness.stalled))
  /\ ~ In HsRelease (h_steps (healthHandler Liveness.stalled)).
Proof.
  split; [reflexivity|]. split; [reflexivity|].
  apply (health_failure_keeps_connection Liveness.stalled tt Liveness.stalled
           Mock.failed Liveness.stalled); reflexivity.
Defined.

Lemma inspection_scoped_witness :
  String.eqb "dict" "" = false
  /\ forallb (scoped_to "dict") (evs (boot "dict" Mock.lexicon)) = true.
Proof.
  split; [reflexivity|].
  apply (inspection_scoped_to_DB_NAME "dict" Mock.lexicon). reflexivity.
Defined.

Lemma every_table_is_described_witness :
  conn_query (ShowTablesFrom "dict") (world (initialState Mock.flaky))
  = (inr [[("Tables_in_dict", "drafts")]; [("Tables_in_dict", "words")]],
     Mock.flaky)
  /\ res (inspectDatabase "dict" (initialState Mock.flaky)) = inr tt
  /\ queries_sent (evs (inspectDatabase "dict" (initialState Mock.flaky)))
     = ShowTablesFrom "dict"
       :: map (Describe "dict")
            (tableNamesOf "dict"
               [[("Tables_in_dict", "drafts")]; [("Tables_in_dict", "words")]]).
Proof.
  split; [reflexivity|].
  apply (every_table_is_described "dict" (initialState Mock.flaky)
           [[("Tables_in_dict", "drafts")]; [("Tables_in_dict", "words")]]
           Mock.flaky).
  reflexivity.
Defined.

(* ================================================================== *)
(** ** The answers that carry an error *)

Section Answers.
Context {W : Type} `{Driver W}.

(** The handler answers in one of three ways. *)
Lemma searchHandler_answers (req : Request) (st : State W) (r : Response) :
  res (searchHandler req st) = inr r ->
  (blank req /\ r = bad_request)
  \/ (~ blank req
      /\ (r = internal_error \/ exists rs, r = respond (wordOf req) rs)).
Proof.
  destruct (String.eqb_spec (wordOf req) "") as [E|Hne].
  { unfold searchHandler. rewrite E. cbn. intros [= <-]. left.
    split; [now apply blank_wordOf | reflexivity]. }
  assert (Hnb : ~ blank req) by (now rewrite blank_wordOf).
  destruct (pool_getConnection (world st)) as [[e|[]] w1] eqn:Hp.
  { destruct (searchHandler_refused req st e w1 Hne Hp) as [-> _].
    discriminate. }
  destruct (searchHandler_run req st w1 Hne Hp) as [-> _].
  set (st1 := mkState w1 (inspectionSummary st)).
  destruct (candidatePhase_run (wordOf req) st1) as (Hc & _).
  destruct (map _ _) as [|r0 rs] eqn:Hrs.
  - destruct (searchBody_miss (wordOf req) st1 Hc) as [-> _].
    destruct (res (fallbackPhase _ _ _)) as [e|rs2]; intros [= <-];
      right; split; eauto.
  - destruct (searchBody_hit (wordOf req) st1 (r0 :: rs) Hc) as [-> _];
      [discriminate|].
    intros [= <-]. right. split; eauto.
Qed.

(** C5, as the code has it.  A request is answered 500, with the body
    [{error: "Internal server error"}], exactly when a statement that lists
    the catalog failed (SHOW DATABASES, or SHOW TABLES of one database); a
    failing DESCRIBE or SELECT of a table never leads to it.  A request is
    answered 400, with the body naming the missing parameter, exactly when
    its word is absent or blank. *)
Theorem errors_reaching_the_client (req : Request) (st : State W) :
  (res (searchHandler req st) = inr internal_error
   <-> existsb listing_failed (evs (searchHandler req st)) = true)
  /\ (forall r, res (searchHandler req st) = inr r ->
                status r = 500%Z -> r = internal_error)
  /\ (res (searchHandler req st) = inr bad_request <-> blank req)
  /\ (forall r, res (searchHandler req st) = inr r ->
                status r = 400%Z -> r = bad_request).
Proof.
  assert (H500 : forall r, res (searchHandler req st) = inr r ->
                           status r = 500%Z -> r = internal_error).
  { intros r Hr Hs.
    destruct (searchHandler_answers req st r Hr)
      as [[_ ->]|[_ [->|[rs ->]]]]; [discriminate|reflexivity|].
    now apply respond_status in Hs. }
  assert (H400 : forall r, res (searchHandler req st) = inr r ->
                           status r = 400%Z -> r = bad_request).
  { intros r Hr Hs.
    destruct (searchHandler_answers req st r Hr)
      as [[_ ->]|[_ [->|[rs ->]]]]; [reflexivity|discriminate|].
    unfold respond in Hs. destruct (Nat.eqb _ _); discriminate. }
  split; [|split; [exact H500|split; [|exact H400]]].
  - rewrite <- internal_error_iff_listing_failed. split.
    + intros Hr. now exists internal_error.
    + intros (r & Hr & Hs). now rewrite Hr, (H500 r Hr Hs).
  - split.
    + intros Hr. destruct (searchHandler_answers req st _ Hr)
        as [[Hb _]|[_ [E|[rs E]]]]; [exact Hb|discriminate|].
      unfold respond in E. destruct (Nat.eqb _ _); discriminate.
    + intros Hb. apply blank_wordOf in Hb. unfold searchHandler.
      now rewrite Hb.
Qed.

(** *** The row mapping *)




End Answers.

(* ================================================================== *)
(** ** The fallback phase follows its script *)

Lemma word_column_named (fields : list string) (col : string) :
  word_column fields = Some col -> String.eqb col "" = false.
Proof.
  intros Hf. apply find_some in Hf as [Hin _]. cbn in Hin.
  destruct Hin as [<-|[<-|[<-|[<-|[<-|[<-|[]]]]]]]; reflexivity.
Qed.

Section Script.
Context {W : Type} `{Driver W}.

(** The three shapes of the trace of one table. *)
Lemma fallbackTable_trace (w d : string) (acc : list SearchResult)
    (t : string) (st : State W) :
  is_inl (res (fallbackTable w d acc t st)) = false
  /\ ((exists e, evs (fallbackTable w d acc t st)
                 = [EvQuery (Describe d t) (inl e)])
      \/ (exists fields,
            word_column fields = None
            /\ evs (fallbackTable w d acc t st)
               = [EvQuery (Describe d t) (inr fields)])
      \/ (exists fields col r,
            word_column fields = Some col
            /\ evs (fallbackTable w d acc t st)
               = [EvQuery (Describe d t) (inr fields);
                  EvQuery (SelectWhereLower d t col w 25) r])).
Proof.
  unfold fallbackTable, try_catch. rewrite query_then.
  destruct (conn_query (Describe d t) (world st)) as [[e|fields] w1];
    cbn [res post evs ret app is_inl].
  { split; [reflexivity|]. left. now exists e. }
  change (find (includes (lowerFields fields)) WORD_COLUMNS)
    with (word_column fields).
  destruct (word_column fields) as [col|] eqn:Hcol; cbn [falsy key_of].
  2: { cbn. split; [reflexivity|]. right. left. now exists fields. }
  rewrite (word_column_named fields col Hcol).
  rewrite query_then. cbn [world inspectionSummary].
  destruct (conn_query (SelectWhereLower d t col w 25) w1) as [[e|rows] w2];
    cbn [res post evs ret app is_inl]; (split; [reflexivity|]);
    right; right; eexists fields, col, _; split; auto.
Qed.

Lemma tables_follow_script (w d : string) (ts : list string) :
  forall (acc : list SearchResult) (st : State W) (rest : list Event),
    is_inl (res (foldM (fallbackTable w d) ts acc st)) = false
    /\ tables_script w d ts (evs (foldM (fallbackTable w d) ts acc st) ++ rest)
       = Some rest.
Proof.
  induction ts as [|t ts IH]; intros acc st rest; cbn [foldM];
    [split; reflexivity|].
  unfold bind.
  destruct (fallbackTable_trace w d acc t st) as [Hr Hshape].
  destruct (res (fallbackTable w d acc t st)) as [e|acc'] eqn:E;
    [discriminate|].
  cbn [res post evs].
  destruct (IH acc' (post (fallbackTable w d acc t st)) rest) as [Hr' Hs'].
  split; [exact Hr'|]. rewrite <- app_assoc.
  destruct Hshape as [[e ->]|[(fields & Hn & ->)|(fields & col & r & Hc & ->)]];
    cbn [app tables_script described]; rewrite !String.eqb_refl; cbn [andb].
  - exact Hs'.
  - rewrite Hn. exact Hs'.
  - rewrite Hc. cbn [is_select]. rewrite !String.eqb_refl. exact Hs'.
Qed.

Lemma fallbackDatabase_run (w : string) (acc : list SearchResult)
    (d : string) (st : State W) :
  fallbackDatabase w acc d st
  = match conn_query (ShowTablesFrom d) (world st) with
    | (inl e, w1) =>
        mkOut (inl e) (mkState w1 (inspectionSummary st))
              [EvQuery (ShowTablesFrom d) (inl e)]
    | (inr rows, w1) =>
        let o := foldM (fallbackTable w d) (tableNamesOf d rows) acc
                   (mkState w1 (inspectionSummary st)) in
        mkOut (res o) (post o) (EvQuery (ShowTablesFrom d) (inr rows) :: evs o)
    end.
Proof. unfold fallbackDatabase. now rewrite query_then. Qed.

Lemma databases_follow_script (w : string) (ds : list string) :
  forall (acc : list SearchResult) (st : State W),
    databases_script w ds (evs (foldM (fallbackDatabase w) ds acc st)) = true.
Proof.
  induction ds as [|d ds IH]; intros acc st; cbn [foldM]; [reflexivity|].
  unfold bind. rewrite fallbackDatabase_run.
  destruct (conn_query (ShowTablesFrom d) (world st)) as [[e|rows] w1];
    cbn [res post evs].
  { cbn. now rewrite String.eqb_refl. }
  set (st1 := mkState w1 (inspectionSummary st)).
  set (o := foldM (fallbackTable w d) (tableNamesOf d rows) acc st1).
  destruct (tables_follow_script w d (tableNamesOf d rows) acc st1 [])
    as [Hr _]. fold o in Hr.
  destruct (res o) as [e|acc'] eqn:E; [discriminate|].
  cbn [res post evs app databases_script tables_listed].
  rewrite String.eqb_refl. cbn [andb].
  destruct (tables_follow_script w d (tableNamesOf d rows) acc st1
              (evs (foldM (fallbackDatabase w) ds acc' (post o))))
    as [_ Hs]. fold o in Hs. rewrite Hs. apply IH.
Qed.

Lemma fallback_follows_script (w : string) (acc : list SearchResult)
    (st : State W) :
  fallback_script w (evs (fallbackPhase w acc st)) = true.
Proof.
  unfold fallbackPhase. rewrite query_then.
  destruct (conn_query ShowDatabases (world st)) as [[e|dbs] w1];
    cbn [res post evs fallback_script databases_listed]; [reflexivity|].
  apply databases_follow_script.
Qed.

Lemma candidatePhase_sends_no_fallback (w : string) :
  emits (fun e => is_fallback_statement e = false) (candidatePhase w).
Proof.
  apply emits_bind; [apply emits_gets|]. intros cands.
  apply emits_foldM. intros acc c.
  apply emits_try_catch.
  - apply emits_bind; [now apply emits_query|]. intros rows. apply emits_ret.
  - intros e. apply emits_bind; [now apply emits_emit|]. intros _.
    apply emits_ret.
Qed.

(** C1.  The fallback phase of a request runs exactly when its candidate
    phase ran and produced no result.  When it did, the trace of the
    request is the acquisition, the candidate phase, then a full run of the
    fallback script (the listing of the databases, and for every database
    that is not a system schema the listing of its tables, the DESCRIBE of
    each table and the SELECT limited to 25 rows on every table with a
    word-vocabulary column), an error line if a listing failed, and the
    release.  When it did not, the request sends no statement of the
    fallback phase at all. *)
Theorem fallback_runs_iff_no_candidate_result (req : Request) (st : State W) :
  (fallback_ran (evs (searchHandler req st)) = true <-> phase1 req st = Some [])
  /\ (phase1 req st = Some [] ->
      exists F E,
        evs (searchHandler req st)
        = EvAcquire (inr tt) :: phase1_trace req st ++ F ++ E ++ [EvRelease]
        /\ fallback_script (wordOf req) F = true
        /\ (E = [] \/ exists m, E = [EvError m]))
  /\ (phase1 req st <> Some [] ->
      existsb is_fallback_statement (evs (searchHandler req st)) = false).
Proof.
  split; [apply fallback_iff_no_candidate_result|]. split.
  - intros Hp1.
    destruct (phase1_reached req st [] Hp1) as (w1 & Hw & Hp & Hpost & Hr).
    destruct (searchHandler_run req st w1 Hw Hp) as [_ ->].
    destruct (searchBody_miss (wordOf req) _ Hr) as [_ ->].
    unfold phase1_trace. rewrite Hpost.
    set (st1 := mkState w1 (inspectionSummary st)).
    set (o2 := fallbackPhase (wordOf req) [] (post (candidatePhase (wordOf req) st1))).
    exists (evs o2),
      (match res o2 with
       | inl e => [EvError ("Search error: " +:+ message e)]
       | inr _ => []
       end).
    split; [now rewrite <- !app_assoc|]. split.
    + apply fallback_follows_script.
    + destruct (res o2); eauto.
  - intros Hne. apply existsb_quiet_list.
    destruct (String.eqb_spec (wordOf req) "") as [E|Hw].
    { unfold searchHandler. rewrite E. constructor. }
    destruct (pool_getConnection (world st)) as [[e|[]] w1] eqn:Hp.
    { destruct (searchHandler_refused req st e w1 Hw Hp) as [_ ->].
      now constructor. }
    destruct (searchHandler_run req st w1 Hw Hp) as [_ ->].
    set (st1 := mkState w1 (inspectionSummary st)).
    destruct (candidatePhase_run (wordOf req) st1) as (Hr & _).
    destruct (map _ _) as [|r rs] eqn:Hrs.
    + exfalso. apply Hne. unfold phase1, getConnection.
      destruct (String.eqb_spec (wordOf req) "") as [E|_]; [contradiction|].
      rewrite Hp. cbn [res post]. fold st1. now rewrite Hr.
    + destruct (searchBody_hit (wordOf req) st1 (r :: rs) Hr) as [_ ->];
        [discriminate|].
      constructor; [reflexivity|]. apply Forall_app. split.
      * apply candidatePhase_sends_no_fallback.
      * now constructor.
Qed.

End Script.

(** A run that lists the databases and stops there is not a run of the
    fallback phase, nor is one that skips the SELECT of a table with a word
    column. *)
Example fallback_script_rejects :
  fallback_script "apple" [EvQuery ShowDatabases (inr ["dict"])] = false
  /\ fallback_script "apple"
       [EvQuery ShowDatabases (inr ["dict"]);
        EvQuery (ShowTablesFrom "dict") (inr [[("Tables_in_dict", "words")]]);
        EvQuery (Describe "dict" "words") (inr ["word"; "definition"])]
     = false
  /\ fallback_script "apple"
       [EvQuery ShowDatabases (inr ["mysql"; "dict"]);
        EvQuery (ShowTablesFrom "dict") (inr [[("Tables_in_dict", "words")]]);
        EvQuery (Describe "dict" "words") (inr ["Word"; "definition"]);
        EvQuery (SelectWhereLower "dict" "words" "word" "apple" 25) (inr [])]
     = true.
Proof. repeat split. Qed.

(* ================================================================== *)
(** ** Inspection and its errors *)

Section InspectionErrors.
Context {W : Type} `{Driver W}.
Variable DB_NAME : string.

(** *** Every failed call is logged or thrown *)











(** *** Every failed call is logged once *)











(** *** Every candidate comes from a DESCRIBE that succeeded *)









(** *** With DB_NAME set, an inspection that throws has recorded nothing *)


Lemma inspectDatabase_run (d : string) (st : State W) :
  inspectDatabase d st
  = match conn_query (ShowTablesFrom d) (world st) with
    | (inl e, w1) =>
        mkOut (inl e) (mkState w1 (inspectionSummary st))
              [EvQuery (ShowTablesFrom d) (inl e)]
    | (inr tables, w1) =>
        let o := forM_ (tableNamesOf d tables) (inspectTable d)
                   (mkState w1 (inspectionSummary st)) in
        mkOut (res o) (post o) (EvQuery (ShowTablesFrom d) (inr tables) :: evs o)
    end.
Proof. unfold inspectDatabase. now rewrite query_then. Qed.




End InspectionErrors.

Section InspectionScenario.
Import Mock.


(** The boolean false of a JSON column is dropped like the number zero; a
    fraction that is not zero is kept. *)
Example false_is_dropped :
  definitions
    (rowToResult "dict" "words" (Some "word") ["definition"; "meaning"] []
       (to_row ["word"; "definition"; "meaning"]
               [VStr "apple"; VBool false; VFrac 1 2]))
  = [VFrac 1 2].
Proof. vm_compute. reflexivity. Qed.

End InspectionScenario.

(* ================================================================== *)
(** ** The databases of the summary *)

Section Databases.
Context {W : Type} `{Driver W}.
Variable DB_NAME : string.

Lemma walked_app (a b : list Event) : walked (a ++ b) = walked a ++ walked b.
Proof. unfold walked, queries_sent. now rewrite !omap_app. Qed.

Lemma walked_describes (d : string) (ts : list string) :
  omap tables_db (map (Describe d) ts) = [].
Proof. induction ts as [|t ts IH]; [reflexivity|exact IH]. Qed.

Lemma walked_inspectDatabases (ds : list string) :
  forall st : State W,
    is_inl (res (forM_ ds inspectDatabase st)) = false ->
    walked (evs (forM_ ds inspectDatabase st)) = ds.
Proof.
  induction ds as [|d ds IH]; intros st; cbn [forM_]; [reflexivity|].
  unfold bind. rewrite inspectDatabase_run.
  destruct (conn_query (ShowTablesFrom d) (world st)) as [[e|tables] w1];
    cbn [res post evs is_inl]; [discriminate|].
  destruct (inspectTables_run d (tableNamesOf d tables)
              (mkState w1 (inspectionSummary st))) as [Hr Hq].
  rewrite Hr. cbn [res post evs]. intros Hok.
  assert (Hd : walked (evs (forM_ (tableNamesOf d tables) (inspectTable d)
                              (mkState w1 (inspectionSummary st)))) = []).
  { unfold walked. rewrite Hq. apply walked_describes. }
  rewrite walked_app, (IH _ Hok).
  change (walked (EvQuery (ShowTablesFrom d) (inr tables) :: ?l))
    with (d :: walked l).
  now rewrite Hd.
Qed.

Lemma walked_inspectSchema (dbNames : list string) (st : State W) :
  is_inl (res (inspectDatabases DB_NAME dbNames st)) = false ->
  walked (evs (inspectDatabases DB_NAME dbNames st))
  = filteredDbNamesOf DB_NAME dbNames.
Proof.
  unfold inspectDatabases, bind.
  pose proof (walked_inspectDatabases (filteredDbNamesOf DB_NAME dbNames) st)
    as Hw.
  destruct (res (forM_ (filteredDbNamesOf DB_NAME dbNames) inspectDatabase st));
    cbn [res evs is_inl]; [discriminate|].
  intros _. rewrite walked_app, (Hw eq_refl). cbn. apply app_nil_r.
Qed.

(** X15.  When connecting or inspecting throws, [databases] is left empty,
    whatever candidates were recorded before.  When they complete,
    [databases] is the reply of SHOW DATABASES restricted to DB_NAME when
    it is set and without the names of the exclusion list, it is exactly
    the list of databases whose tables were listed, in that order, and
    every candidate's database is one of them.  Either way no name of the
    exclusion list, as spelled there, is listed. *)
Theorem databases_of_the_summary (w0 : W) :
  let o := boot DB_NAME w0 in
  let s := inspectionSummary (post o) in
  let failed := is_inl (res (connectAndInspect DB_NAME (initialState w0))) in
  (failed = true -> databases s = [])
  /\ (failed = false ->
      exists dbNames,
        In (EvQuery ShowDatabases (inr dbNames)) (evs o)
        /\ databases s
           = List.filter
               (fun d => negb (existsb (String.eqb d) SYSTEM_SCHEMAS))
               (if String.eqb DB_NAME "" then dbNames else [DB_NAME])
        /\ walked (evs o) = databases s
        /\ Forall (fun c => In (db c) (databases s)) (candidates s))
  /\ Forall (fun d => ~ In d SYSTEM_SCHEMAS) (databases s).
Proof.
  intros o s failed. subst o s failed. unfold boot. rewrite startup_run.
  cbn [post evs].
  assert (Hsys : forall dbNames,
             Forall (fun d => ~ In d SYSTEM_SCHEMAS)
                    (filteredDbNamesOf DB_NAME dbNames)).
  { intros dbNames. apply List.Forall_forall. intros d Hd Hin.
    apply (filtered_not_system DB_NAME) in Hd. unfold includes in Hd.
    assert (Ht : existsb (String.eqb d) SYSTEM_SCHEMAS = true).
    { apply existsb_exists. exists d. split; [exact Hin|apply String.eqb_refl]. }
    congruence. }
  unfold connectAndInspect, bind, getConnection, ping, release, emit.
  cbn [initialState world inspectionSummary].
  destruct (pool_getConnection w0) as [[e|u] w1];
    cbn [res post evs is_inl world inspectionSummary databases];
    [split; [auto|split; [discriminate|constructor]]|].
  destruct (conn_ping w1) as [[e|u'] w2];
    cbn [res post evs is_inl world inspectionSummary databases];
    [split; [auto|split; [discriminate|constructor]]|].
  rewrite inspectSchema_run. cbn [world inspectionSummary].
  destruct (pool_getConnection w2) as [[e|u2] w3];
    cbn [res post evs is_inl world inspectionSummary databases];
    [split; [auto|split; [discriminate|constructor]]|].
  destruct (conn_query ShowDatabases w3) as [[e|dbNames] w4];
    cbn [res post evs is_inl world inspectionSummary databases];
    [split; [auto|split; [discriminate|constructor]]|].
  destruct (inspectDatabases_summary DB_NAME dbNames
              (mkState w4 (mkSummary [] [])))
    as (Hin & Hfail & Hok); [constructor|].
  cbn [inspectionSummary databases] in Hfail.
  set (run := inspectDatabases DB_NAME dbNames (mkState w4 (mkSummary [] []))) in *.
  destruct (is_inl (res run)) eqn:Hr.
  { rewrite (Hfail eq_refl). split; [auto|split; [discriminate|constructor]]. }
  rewrite (Hok eq_refl) in *. split; [discriminate|]. split; [|apply Hsys].
  intros _. exists dbNames. split; [|split; [|split]].
  - cbn. auto 10.
  - reflexivity.
  - pose proof (walked_inspectSchema dbNames _ Hr) as Hw. fold run in Hw.
    destruct (res run); [discriminate|].
    change (EvAcquire (inr u2) :: EvQuery ShowDatabases (inr dbNames)
            :: evs run ++ [EvRelease])
      with ([EvAcquire (inr u2); EvQuery ShowDatabases (inr dbNames)]
            ++ evs run ++ [EvRelease]).
    rewrite !walked_app, Hw. cbn. now rewrite ?app_nil_r.
  - exact Hin.
Qed.

End Databases.

Section DatabasesScenario.
Import Mock.

Lemma databases_of_the_summary_witness :
  is_inl (res (connectAndInspect "" (initialState lexicon))) = false
  /\ walked (evs (boot "" lexicon))
     = databases (inspectionSummary (post (boot "" lexicon)))
  /\ databases (inspectionSummary (post (boot "" lexicon))) <> [].
Proof.
  split; [reflexivity|]. split; [|discriminate].
  destruct (databases_of_the_summary "" lexicon) as (_ & Hok & _).
  destruct (Hok eq_refl) as (dbNames & _ & _ & Hw & _). exact Hw.
Defined.

End DatabasesScenario.
